(** * annotate_labels: the LabelAnnotator class of annotate_labels.py

    A shallow embedding of [LabelAnnotator] and of the collaborators it
    talks to (the Girder registry client, the temporary file, the two image
    decoders and the drawing context), followed by the properties of the
    resolution-and-rendering pipeline.

    Conventions.
    - Python exceptions are values of [exn]; a method is a computation in
      the monad [M], which threads the instance ([self]) and the outside
      world and keeps both when an exception is raised.
    - Registry answers are typed records (overlay, file, item, annotation);
      keys the code guards against being absent are [option] fields.
    - Coordinates are integers ([Z]). *)

From Stdlib Require Import ZArith String List Bool Lia.
From stdpp Require Import base option list strings gmap.
Import ListNotations.
Local Open Scope string_scope.
Local Open Scope Z_scope.

(** ** Exceptions *)

Inductive exn : Type :=
| ValueError (msg : string)
| KeyError (key : string)
| IndexError
| NameError (name : string)
| AttributeError (attr : string)
| HttpError (status : Z)
| IOError (msg : string)
| ImportError (module : string)
| OtherError (msg : string)
| TypeError (msg : string).

Inductive result (A : Type) : Type :=
| Ok (a : A)
| Raise (e : exn).
Arguments Ok {A} a.
Arguments Raise {A} e.

(** [except (IOError, OSError)]: the two names are the same class. *)
Definition is_IOError (e : exn) : bool :=
  match e with IOError _ => true | _ => false end.

(** [except girder_client.HttpError as e], and [e.status]. *)
Definition is_HttpError (e : exn) : bool :=
  match e with HttpError _ => true | _ => false end.

Definition http_status (e : exn) : option Z :=
  match e with HttpError s => Some s | _ => None end.

(** ** Registry data *)

Inductive color : Type :=
| ColorName (s : string)
| ColorValue (n : Z)
| ColorTuple (channels : list Z).

Record overlay : Type := {
  overlay_itemId : string;
  overlay_overlayItemId : string
}.

Record file : Type := {
  file_id : string;
  file_name : string;
  file_mimeType : string
}.

(** [item_largeImage]: [None] when the item has no 'largeImage' key,
    [Some None] when 'largeImage' has no 'fileId'. *)
Record item : Type := {
  item_largeImage : option (option string)
}.

Record element : Type := {
  el_type : string;
  el_center : option (list Z);
  el_width : option Z;
  el_height : option Z;
  el_points : option (list (list Z))
}.

(** [ann_name] is [annotation['annotation']['name']], [None] when the key
    is not there; [ann_elements] is [annotation['annotation']['elements']]. *)
Record annotation : Type := {
  ann_id : string;
  ann_name : option string;
  ann_elements : list element
}.

(** ** The registry client *)

(** The calls [client.get(path, parameters)] the class makes. *)
Inductive request : Type :=
| GetOverlay (overlayId : string)
| GetOverlays (itemId : string)
| GetItemFiles (itemId : string) (limit : Z)
| GetItemAnnotations (itemId : string)
| GetAnnotations (itemId : string) (limit : Z)
| GetAnnotation (annotationId : string).

Inductive pval : Type :=
| PStr (s : string)
| PInt (n : Z).

Definition request_path (r : request) : string :=
  match r with
  | GetOverlay i => "overlay/" ++ i
  | GetOverlays _ => "overlay"
  | GetItemFiles i _ => "item/" ++ i ++ "/files"
  | GetItemAnnotations i => "annotation/item/" ++ i
  | GetAnnotations _ _ => "annotation"
  | GetAnnotation i => "annotation/" ++ i
  end.

Definition request_parameters (r : request) : list (string * pval) :=
  match r with
  | GetOverlays i => [("itemId", PStr i)]
  | GetItemFiles _ n => [("limit", PInt n)]
  | GetAnnotations i n => [("itemId", PStr i); ("limit", PInt n)]
  | GetOverlay _ | GetItemAnnotations _ | GetAnnotation _ => []
  end.

Definition payload (r : request) : Type :=
  match r with
  | GetOverlay _ => overlay
  | GetOverlays _ => list overlay
  | GetItemFiles _ _ => list file
  | GetItemAnnotations _ => list annotation
  | GetAnnotations _ _ => list annotation
  | GetAnnotation _ => annotation
  end.

(** [downloadFile] answers with the bytes it writes to the local path. *)
Record GirderClient : Type := {
  get : forall r : request, result (payload r);
  getItem : string -> result item;
  downloadFile : string -> result string
}.

Inductive event : Type :=
| EvGet (r : request)
| EvGetItem (itemId : string)
| EvDownloadFile (fileId : string) (localPath : string)
| EvTempFile (name : string)
| EvClose (name : string)
| EvSave (output : string).

Definition is_registry_call (ev : event) : bool :=
  match ev with
  | EvGet _ | EvGetItem _ | EvDownloadFile _ _ => true
  | _ => false
  end.

(** ** Images and drawing calls *)

Record Image : Type := {
  im_width : Z;
  im_height : Z;
  im_pixel : Z -> Z -> color
}.

(** The three [ImageDraw] calls of [_draw_annotations], with their
    arguments as the code builds them: [xy] is a list of tuples. *)
Inductive draw_call : Type :=
| DrawPoint (xy : list (list Z)) (fill : color)
| DrawRectangle (xy : list (list Z)) (outline fill : color)
| DrawPolygon (xy : list (list Z)) (outline fill : color).

(** ** The instance and the world *)

Record LabelAnnotator : Type := {
  client : GirderClient;
  _colormap : option (gmap string color);
  _girder_id : option string;
  (** the attribute the setter writes: [None] until it exists *)
  _gider_id : option (option string);
  _is_overlay_id : bool;
  _item_id : option string;
  _overlay_item_id : option string;
  _overlay_file : option file;
  _annotations : option (list annotation)
}.

(** [module_client] is the module-level name [client], bound by the
    script's entry block only; [local_files] holds the local paths written
    so far, the live temporary files among them. *)
Record World : Type := {
  module_client : option GirderClient;
  trace : list event;
  local_files : gmap string string;
  temp_counter : nat
}.

Definition set_colormap_attr v (s : LabelAnnotator) : LabelAnnotator :=
  {| client := client s; _colormap := v; _girder_id := _girder_id s;
     _gider_id := _gider_id s; _is_overlay_id := _is_overlay_id s;
     _item_id := _item_id s; _overlay_item_id := _overlay_item_id s;
     _overlay_file := _overlay_file s; _annotations := _annotations s |}.

Definition set_gider_id_attr v (s : LabelAnnotator) : LabelAnnotator :=
  {| client := client s; _colormap := _colormap s; _girder_id := _girder_id s;
     _gider_id := Some v; _is_overlay_id := _is_overlay_id s;
     _item_id := _item_id s; _overlay_item_id := _overlay_item_id s;
     _overlay_file := _overlay_file s; _annotations := _annotations s |}.

Definition set_is_overlay_id_attr v (s : LabelAnnotator) : LabelAnnotator :=
  {| client := client s; _colormap := _colormap s; _girder_id := _girder_id s;
     _gider_id := _gider_id s; _is_overlay_id := v;
     _item_id := _item_id s; _overlay_item_id := _overlay_item_id s;
     _overlay_file := _overlay_file s; _annotations := _annotations s |}.

Definition set_item_id_attr v (s : LabelAnnotator) : LabelAnnotator :=
  {| client := client s; _colormap := _colormap s; _girder_id := _girder_id s;
     _gider_id := _gider_id s; _is_overlay_id := _is_overlay_id s;
     _item_id := v; _overlay_item_id := _overlay_item_id s;
     _overlay_file := _overlay_file s; _annotations := _annotations s |}.

Definition set_overlay_item_id_attr v (s : LabelAnnotator) : LabelAnnotator :=
  {| client := client s; _colormap := _colormap s; _girder_id := _girder_id s;
     _gider_id := _gider_id s; _is_overlay_id := _is_overlay_id s;
     _item_id := _item_id s; _overlay_item_id := v;
     _overlay_file := _overlay_file s; _annotations := _annotations s |}.

Definition set_overlay_file_attr v (s : LabelAnnotator) : LabelAnnotator :=
  {| client := client s; _colormap := _colormap s; _girder_id := _girder_id s;
     _gider_id := _gider_id s; _is_overlay_id := _is_overlay_id s;
     _item_id := _item_id s; _overlay_item_id := _overlay_item_id s;
     _overlay_file := v; _annotations := _annotations s |}.

Definition set_annotations_attr v (s : LabelAnnotator) : LabelAnnotator :=
  {| client := client s; _colormap := _colormap s; _girder_id := _girder_id s;
     _gider_id := _gider_id s; _is_overlay_id := _is_overlay_id s;
     _item_id := _item_id s; _overlay_item_id := _overlay_item_id s;
     _overlay_file := _overlay_file s; _annotations := v |}.

Definition log (ev : event) (w : World) : World :=
  {| module_client := module_client w; trace := trace w ++ [ev];
     local_files := local_files w; temp_counter := temp_counter w |}.

Definition set_local_files (fs : gmap string string) (w : World) : World :=
  {| module_client := module_client w; trace := trace w;
     local_files := fs; temp_counter := temp_counter w |}.

Definition bump_temp_counter (w : World) : World :=
  {| module_client := module_client w; trace := trace w;
     local_files := local_files w; temp_counter := S (temp_counter w) |}.

(** [__init__] *)
Definition init (c : GirderClient) : LabelAnnotator :=
  {| client := c; _colormap := None; _girder_id := None; _gider_id := None;
     _is_overlay_id := false; _item_id := None; _overlay_item_id := None;
     _overlay_file := None; _annotations := None |}.

(** ** The method monad *)

Definition M (A : Type) : Type :=
  LabelAnnotator * World -> result A * (LabelAnnotator * World).

Definition ret {A} (a : A) : M A := fun st => (Ok a, st).

Definition bind {A B} (m : M A) (k : A -> M B) : M B :=
  fun st =>
    match m st with
    | (Ok a, st') => k a st'
    | (Raise e, st') => (Raise e, st')
    end.

Definition raise {A} (e : exn) : M A := fun st => (Raise e, st).

(** [try: body except <handles> as e: handler e]; an exception the clause
    does not name goes on unchanged. *)
Definition try_except {A} (body : M A) (handles : exn -> bool)
    (handler : exn -> M A) : M A :=
  fun st =>
    match body st with
    | (Ok a, st') => (Ok a, st')
    | (Raise e, st') => if handles e then handler e st' else (Raise e, st')
    end.

Definition get_self : M LabelAnnotator := fun st => (Ok (fst st), st).
Definition get_world : M World := fun st => (Ok (snd st), st).
Definition modify_self (f : LabelAnnotator -> LabelAnnotator) : M unit :=
  fun st => (Ok tt, (f (fst st), snd st)).
Definition modify_world (f : World -> World) : M unit :=
  fun st => (Ok tt, (fst st, f (snd st))).
Definition lift {A} (r : result A) : M A := fun st => (r, st).

#[global] Instance M_ret : MRet M := @ret.
#[global] Instance M_bind : MBind M := fun A B k m => bind m k.

(** A call on a client: recorded, then answered. *)
Definition client_get (c : GirderClient) (r : request) : M (payload r) :=
  modify_world (log (EvGet r)) ;; lift (get c r).

Definition client_getItem (c : GirderClient) (i : string) : M item :=
  modify_world (log (EvGetItem i)) ;; lift (getItem c i).

(** The bare name [client] inside a method: a module-level lookup. *)
Definition global_client : M GirderClient :=
  w ← get_world;
  match module_client w with
  | Some c => ret c
  | None => raise (NameError "client")
  end.

#[global] Instance result_ret : MRet result := @Ok.
#[global] Instance result_bind : MBind result := fun A B k r =>
  match r with Ok a => k a | Raise e => Raise e end.

(** [d[key]] on a key that may be missing, and [l[i]]. *)
Definition getitem {A} (key : string) (o : option A) : result A :=
  match o with Some a => Ok a | None => Raise (KeyError key) end.

Definition index {A} (l : list A) (i : nat) : result A :=
  match l !! i with Some a => Ok a | None => Raise IndexError end.

(** ** itertools.groupby *)

(** One pass over the sequence, as the library does it: [tgtkey] is the
    key of the group being filled, [grp] its members so far (newest
    first); a record whose key differs closes the group. *)
Fixpoint groupby_from {A K} `{EqDecision K} (key : A -> K)
    (tgtkey : K) (grp : list A) (l : list A) : list (K * list A) :=
  match l with
  | [] => [(tgtkey, rev grp)]
  | x :: l' =>
      if decide (key x = tgtkey)
      then groupby_from key tgtkey (x :: grp) l'
      else (tgtkey, rev grp) :: groupby_from key (key x) [x] l'
  end.

Definition groupby {A K} `{EqDecision K} (key : A -> K) (l : list A)
    : list (K * list A) :=
  match l with
  | [] => []
  | x :: l' => groupby_from key (key x) [x] l'
  end.

(** What a generator did when run to its end: the values it yielded, in
    order, and the exception that ended it, if one did. *)
Record generated (A : Type) : Type := {
  yielded : list A;
  raised : option exn
}.
Arguments yielded {A} g.
Arguments raised {A} g.

Definition yield {A} (a : A) (g : generated A) : generated A :=
  {| yielded := a :: yielded g; raised := raised g |}.

(** ** Collaborators outside the class *)

Record Externals : Type := {
  (** [json.load(open(filename))] *)
  read_json : string -> result (gmap string color);
  (** [os.path.splitext] *)
  splitext : string -> string * string;
  (** the name [tempfile.NamedTemporaryFile] picks for its n-th file *)
  temp_name : nat -> string -> string;
  (** [Image.open] on the bytes of a file *)
  Image_open : string -> result Image;
  (** [import numpy, pytiff], [pytiff.Tiff], [Image.fromarray] *)
  pytiff_open : string -> result Image;
  (** a call on [ImageDraw.Draw(image)]: the image as the call leaves
      it, or the exception it raises *)
  ImageDraw_call : draw_call -> Image -> result Image;
  (** [Image.save] *)
  Image_save : Image -> string -> result unit
}.

Section LabelAnnotator.

Context (ext : Externals).

(** *** colormap *)

Definition colormap (self : LabelAnnotator) : option (gmap string color) :=
  _colormap self.

Definition set_colormap (colormap_filename : option string) : M unit :=
  match colormap_filename with
  | None | Some EmptyString => modify_self (set_colormap_attr None)
  | Some f =>
      m ← lift (read_json ext f);
      modify_self (set_colormap_attr (Some m))
  end.

(** *** is_overlay_id, item_id, overlay_item_id, overlay_file *)

Definition is_overlay_id (self : LabelAnnotator) : bool := _is_overlay_id self.

Definition set_is_overlay_id (b : bool) : M unit :=
  modify_self (set_is_overlay_id_attr b).

Definition item_id (self : LabelAnnotator) : option string := _item_id self.
Definition overlay_item_id (self : LabelAnnotator) : option string :=
  _overlay_item_id self.
Definition overlay_file (self : LabelAnnotator) : option file :=
  _overlay_file self.

(** *** _update_overlay_file *)

Definition _update_overlay_file : M unit :=
  self ← get_self;
  match _overlay_item_id self with
  | None => modify_self (set_overlay_file_attr None)
  | Some oid =>
      overlay_files ← client_get (client self) (GetItemFiles oid 2);
      match overlay_files with
      | [] => raise (ValueError ("no files for overlay " ++ oid))
      | _ =>
          let overlay_files :=
            List.filter (fun o => String.prefix "image" (file_mimeType o))
                        overlay_files in
          overlay_files ←
            (if (1 <? length overlay_files)%nat then
               overlay_item ← client_getItem (client self) oid;
               let file_id' :=
                 match item_largeImage overlay_item with
                 | Some (Some f) => Some f
                 | _ => None
                 end in
               ret (List.filter
                      (fun o => negb (bool_decide (Some (file_id o) = file_id')))
                      overlay_files)
             else ret overlay_files);
          if (1 <? length overlay_files)%nat then
            raise (ValueError ("multiple files for overlay " ++ oid))
          else
            f ← lift (index overlay_files 0);
            modify_self (set_overlay_file_attr (Some f))
      end
  end.

(** *** _update_annotations *)

(** The loop of the fallback: one full fetch per summary, appended to
    [self._annotations] as it goes. *)
Fixpoint fetch_each (c : GirderClient) (annotations : list annotation)
    : M unit :=
  match annotations with
  | [] => ret tt
  | summary :: rest =>
      full ← client_get c (GetAnnotation (ann_id summary));
      modify_self (fun s =>
        set_annotations_attr
          (Some (default [] (_annotations s) ++ [full])%list) s);;
      fetch_each c rest
  end.

Definition _update_annotations : M unit :=
  self ← get_self;
  match _item_id self with
  | None => modify_self (set_annotations_attr None)
  | Some iid =>
      try_except
        (c ← global_client;
         annotations ← client_get c (GetItemAnnotations iid);
         modify_self (set_annotations_attr (Some annotations)))
        is_HttpError
        (fun e =>
           if bool_decide (http_status e = Some 400) then
             c ← global_client;
             annotations ← client_get c (GetAnnotations iid 0);
             modify_self (set_annotations_attr (Some []));;
             fetch_each c annotations
           else raise e)
  end.

(** *** girder_id *)

Definition girder_id (self : LabelAnnotator) : option string := _girder_id self.

Definition set_girder_id (girder_id : option string) : M unit :=
  modify_self (set_gider_id_attr girder_id);;
  modify_self (set_item_id_attr None);;
  modify_self (set_overlay_item_id_attr None);;
  match girder_id with
  | Some girder_id =>
      self ← get_self;
      '(item_id, overlay) ←
        (if _is_overlay_id self then
           overlay ← client_get (client self) (GetOverlay girder_id);
           ret (overlay_itemId overlay, overlay)
         else
           let item_id := girder_id in
           overlays ← client_get (client self) (GetOverlays item_id);
           match overlays with
           | [] => raise (ValueError ("no overlay for item " ++ item_id))
           | _ =>
               if (1 <? length overlays)%nat then
                 raise (ValueError "multiple overlays, specifiy overlay")
               else
                 overlay ← lift (index overlays 0);
                 ret (item_id, overlay)
           end);
      modify_self (set_item_id_attr (Some item_id));;
      modify_self (set_overlay_item_id_attr (Some (overlay_overlayItemId overlay)))
  | None => ret tt
  end;;
  _update_overlay_file;;
  _update_annotations.

(** *** _annotations_iterator *)

(** The one-character string holding the double quote (code 34). *)
Definition dquote : string :=
  String (Ascii.Ascii false true false false false true false false) EmptyString.

Definition keyfunc (annotation : annotation) : option string :=
  ann_name annotation.

(** The body of the [for name, annotation_group in iterator] loop. *)
Fixpoint annotations_loop (colormap : gmap string color)
    (groups : list (option string * list annotation))
    : generated (color * list annotation) :=
  match groups with
  | [] => {| yielded := []; raised := None |}
  | (None, _) :: rest => annotations_loop colormap rest
  | (Some name, annotation_group) :: rest =>
      match colormap !! name with
      | None =>
          {| yielded := [];
             raised := Some (ValueError
               ("no color mapping for annotation " ++ dquote ++ name ++ dquote)) |}
      | Some color =>
          yield (color, annotation_group) (annotations_loop colormap rest)
      end
  end.

Definition _annotations_iterator (self : LabelAnnotator)
    : generated (color * list annotation) :=
  match _annotations self with
  | None => {| yielded := []; raised := None |}
  | Some annotations =>
      match _colormap self with
      | None =>
          {| yielded := []; raised := Some (ValueError "no color mapping set") |}
      | Some colormap => annotations_loop colormap (groupby keyfunc annotations)
      end
  end.

Definition annotations (self : LabelAnnotator)
    : generated (color * list annotation) :=
  _annotations_iterator self.

(** *** _draw_annotations *)

(** The body of the innermost loop: the one drawing call an element leads
    to, or the exception raised instead. [take 2] is the slice [[:2]]. *)
Definition draw_element (color : color) (element : element) : result draw_call :=
  if String.eqb (el_type element) "point" then
    center ← getitem "center" (el_center element);
    Ok (DrawPoint [take 2 center] color)
  else if String.eqb (el_type element) "rectangle" then
    center ← getitem "center" (el_center element);
    let corner := take 2 center in
    center ← getitem "center" (el_center element);
    x ← index center 0;
    width ← getitem "width" (el_width element);
    center ← getitem "center" (el_center element);
    y ← index center 1;
    height ← getitem "height" (el_height element);
    Ok (DrawRectangle [corner; [x + width; y + height]] color color)
  else if String.eqb (el_type element) "polyline" then
    points ← getitem "points" (el_points element);
    Ok (DrawPolygon (map (take 2) points) color color)
  else
    Raise (ValueError ("invalid element type: " ++ el_type element)).

(** The three nested loops, on the groups the generator yields. *)
Fixpoint draw_elements (color : color) (elements : list element) (im : Image)
    : result Image :=
  match elements with
  | [] => Ok im
  | element :: rest =>
      call ← draw_element color element;
      im ← ImageDraw_call ext call im;
      draw_elements color rest im
  end.

Fixpoint draw_group (color : color) (annotation_group : list annotation)
    (im : Image) : result Image :=
  match annotation_group with
  | [] => Ok im
  | annotation :: rest =>
      im ← draw_elements color (ann_elements annotation) im;
      draw_group color rest im
  end.

Fixpoint draw_groups (groups : list (color * list annotation)) (im : Image)
    : result Image :=
  match groups with
  | [] => Ok im
  | (color, annotation_group) :: rest =>
      im ← draw_group color annotation_group im;
      draw_groups rest im
  end.

(** *** image_file and image *)

Definition write_file (path bytes : string) (w : World) : World :=
  set_local_files (<[path := bytes]> (local_files w)) w.

Definition remove_file (path : string) (w : World) : World :=
  set_local_files (delete path (local_files w)) w.

(** [tempfile.NamedTemporaryFile(suffix=...)]: a new, empty local file. *)
Definition NamedTemporaryFile (suffix : string) : M string :=
  w ← get_world;
  let name := temp_name ext (temp_counter w) suffix in
  modify_world (fun w => log (EvTempFile name) (bump_temp_counter (write_file name "" w)));;
  ret name.

(** [image_file.close()]: closing a named temporary file deletes it. *)
Definition close (image_file : option string) : M unit :=
  match image_file with
  | None => raise (AttributeError "close")
  | Some name => modify_world (fun w => log (EvClose name) (remove_file name w))
  end.

(** [image_file.name] *)
Definition tempfile_name (image_file : option string) : M string :=
  match image_file with
  | None => raise (AttributeError "name")
  | Some name => ret name
  end.

Definition client_downloadFile (c : GirderClient) (fileId path : string) : M unit :=
  modify_world (log (EvDownloadFile fileId path));;
  bytes ← lift (downloadFile c fileId);
  modify_world (write_file path bytes).

(** A decoder applied to a local path. *)
Definition decode (decoder : string -> result Image) (path : string) : M Image :=
  w ← get_world;
  match local_files w !! path with
  | Some bytes => lift (decoder bytes)
  | None => raise (IOError "No such file or directory")
  end.

Definition image_file : M (option string) :=
  self ← get_self;
  match _overlay_file self with
  | None => ret None
  | Some f =>
      let extension := snd (splitext ext (file_name f)) in
      image_file ← NamedTemporaryFile extension;
      client_downloadFile (client self) (file_id f) image_file;;
      ret (Some image_file)
  end.

(** The bare [raise] of the inner handler raises again the exception that
    handler is handling, the one bound to [pytiff_exception]. *)
Definition image : M Image :=
  image_file ← image_file;
  image ←
    try_except
      (name ← tempfile_name image_file; decode (Image_open ext) name)
      is_IOError
      (fun pillow_exception =>
         try_except
           (name ← tempfile_name image_file; decode (pytiff_open ext) name)
           is_IOError
           (fun pytiff_exception => raise pytiff_exception));
  close image_file;;
  ret image.

Definition _draw_annotations : M Image :=
  image ← image;
  self ← get_self;
  let groups := annotations self in
  image ← lift (draw_groups (yielded groups) image);
  match raised groups with
  | Some e => raise e
  | None => ret image
  end.

(** *** save *)

Definition save (output_filename : string) : M unit :=
  image ← _draw_annotations;
  modify_world (log (EvSave output_filename));;
  lift (Image_save ext image output_filename).

End LabelAnnotator.

(** ** Operations on an instance *)

(** What a caller can do with an instance: the three settable properties
    and the two operations that read the overlay. *)
Inductive operation : Type :=
| SetColormap (colormap_filename : option string)
| SetIsOverlayId (is_overlay_id : bool)
| SetGirderId (girder_id : option string)
| ReadImage
| Save (output_filename : string).

Definition run_operation (ext : Externals) (op : operation) : M unit :=
  match op with
  | SetColormap f => set_colormap ext f
  | SetIsOverlayId b => set_is_overlay_id b
  | SetGirderId g => set_girder_id g
  | ReadImage => image ext;; mret tt
  | Save out => save ext out
  end.

(** A caller may catch an exception and go on using the instance: the
    state an operation leaves is the state the next one starts from. *)
Fixpoint run_operations (ext : Externals) (ops : list operation)
    (st : LabelAnnotator * World) : LabelAnnotator * World :=
  match ops with
  | [] => st
  | op :: rest => run_operations ext rest (snd (run_operation ext op st))
  end.

(** * Vocabulary of the properties *)

(** ** Attributes a computation leaves alone *)

Definition preserves {A B} (proj : LabelAnnotator -> B) (m : M A) : Prop :=
  forall st, proj (fst (snd (m st))) = proj (fst st).

(** ** The error kinds of the design *)

(** Every failure the class itself signals is a [ValueError]; the kinds
    the design names are told apart by the message. *)
Inductive error_kind : Type :=
| NotFoundError
| AmbiguousError
| ConfigError
| ValidationError.

Definition kind_of (e : exn) : option error_kind :=
  match e with
  | ValueError msg =>
      if String.prefix "no overlay for item " msg
         || String.prefix "no files for overlay " msg then Some NotFoundError
      else if String.prefix "multiple overlays" msg
         || String.prefix "multiple files for overlay " msg then Some AmbiguousError
      else if String.prefix "no color mapping" msg then Some ConfigError
      else if String.prefix "invalid element type" msg then Some ValidationError
      else None
  | _ => None
  end.

(** ** Files, calls and runs *)

Definition is_image (o : file) : bool := String.prefix "image" (file_mimeType o).

Definition log_all (evs : list event) (w : World) : World :=
  fold_left (fun w ev => log ev w) evs w.

Definition fetch_event (summary : annotation) : event :=
  EvGet (GetAnnotation (ann_id summary)).

Section Runs.

Context {A K : Type} (key : A -> K).

(** A run: a non-empty block of records with one key. *)
Definition run_ok (r : K * list A) : Prop :=
  snd r <> [] /\ Forall (fun a => key a = fst r) (snd r).

Fixpoint adjacent_differ (ks : list K) : Prop :=
  match ks with
  | k1 :: ((k2 :: _) as rest) => k1 <> k2 /\ adjacent_differ rest
  | _ => True
  end.

(** [runs] are the maximal runs of the sequence [concat (map snd runs)]. *)
Definition is_runs (runs : list (K * list A)) : Prop :=
  Forall run_ok runs /\ adjacent_differ (map fst runs).

End Runs.

(** Runs whose records all carry a label, as the grouper keys them. *)
Definition keyed (runs : list (string * list annotation))
    : list (option string * list annotation) :=
  map (fun r => (Some (fst r), snd r)) runs.

Definition labelled_runs (runs : list (string * list annotation)) : Prop :=
  is_runs keyfunc (keyed runs).

Definition complete (colormap : gmap string color)
    (runs : list (string * list annotation)) : Prop :=
  Forall (fun r => is_Some (colormap !! fst r)) runs.

(** [out] holds one pair per run, in order: the run's color and the run. *)
Definition colored (colormap : gmap string color)
    (runs : list (string * list annotation))
    (out : list (color * list annotation)) : Prop :=
  Forall2 (fun r o => colormap !! fst r = Some (fst o) /\ snd o = snd r) runs out.

(** The world after the overlay file was downloaded to its temporary
    file, and after that file was closed. *)
Definition downloaded (ext : Externals) (f : file) (bytes : string)
    (w : World) : World :=
  let name := temp_name ext (temp_counter w) (snd (splitext ext (file_name f))) in
  write_file name bytes
    (log (EvDownloadFile (file_id f) name)
       (log (EvTempFile name) (bump_temp_counter (write_file name "" w)))).

Definition released (ext : Externals) (f : file) (bytes : string)
    (w : World) : World :=
  let name := temp_name ext (temp_counter w) (snd (splitext ext (file_name f))) in
  log (EvClose name) (remove_file name (downloaded ext f bytes w)).

(** ** The drawing library, as documented *)

Definition in_image (im : Image) (x y : Z) : bool :=
  (0 <=? x) && (x <? im_width im) && (0 <=? y) && (y <? im_height im).

Definition in_box (x0 y0 x1 y1 x y : Z) : bool :=
  (x0 <=? x) && (x <=? x1) && (y0 <=? y) && (y <=? y1).



(** ** Fixtures *)

Module Demo.

Definition red : color := ColorName "#ff0000".
Definition blue : color := ColorName "#0000ff".
Definition green : color := ColorName "#00ff00".

Definition square : element :=
  {| el_type := "rectangle"; el_center := Some [0; 0; 0];
     el_width := Some 5; el_height := Some 5; el_points := None |}.

Definition tumor (id : string) : annotation :=
  {| ann_id := id; ann_name := Some "tumor"; ann_elements := [square] |}.

Definition stroma (id : string) : annotation :=
  {| ann_id := id; ann_name := Some "stroma"; ann_elements := [] |}.

Definition unlabeled : annotation :=
  {| ann_id := "u"; ann_name := None; ann_elements := [] |}.

Definition necrosis (id : string) : annotation :=
  {| ann_id := id; ann_name := Some "necrosis"; ann_elements := [] |}.

Definition cmap : gmap string color :=
  {[ "tumor" := red; "stroma" := blue; "necrosis" := green ]}.

Definition the_overlay : overlay :=
  {| overlay_itemId := "item1"; overlay_overlayItemId := "overlay1" |}.

Definition png : file :=
  {| file_id := "f1"; file_name := "overlay.png"; file_mimeType := "image/png" |}.

Definition notes : file :=
  {| file_id := "f2"; file_name := "notes.txt"; file_mimeType := "text/plain" |}.

(** A registry answering every overlay query with [overlays], every file
    listing with [files], every item lookup with [it], the full
    annotation list with [full_list] and every download with [bytes];
    summaries and per-id records are the two tumor annotations. *)
Definition registry_with (overlays : list overlay) (files : list file)
    (it : item) (full_list : result (list annotation)) (bytes : string)
    : GirderClient :=
  {| get := fun r =>
       match r as r0 return result (payload r0) with
       | GetOverlay _ => Ok the_overlay
       | GetOverlays _ => Ok overlays
       | GetItemFiles _ _ => Ok files
       | GetItemAnnotations _ => full_list
       | GetAnnotations _ _ => Ok [tumor "a1"; tumor "a2"]
       | GetAnnotation i => Ok (tumor i)
       end;
     getItem := fun _ => Ok it;
     downloadFile := fun _ => Ok bytes |}.

Definition plain_item : item := {| item_largeImage := None |}.

(** One base item, its overlay, one image file, two annotations. *)
Definition registry : GirderClient :=
  registry_with [the_overlay] [png] plain_item
    (Ok [tumor "a1"; tumor "a2"]) "PNG".

(** The same registry, answering a download with the given bytes. *)
Definition registry_serving (bytes : string) : GirderClient :=
  registry_with [the_overlay] [png] plain_item
    (Ok [tumor "a1"; tumor "a2"]) bytes.

(** The same registry, with the given overlays for the base item. *)
Definition registry_overlays (overlays : list overlay) : GirderClient :=
  registry_with overlays [png] plain_item (Ok [tumor "a1"; tumor "a2"]) "PNG".

(** The same registry, with the given files and item for the overlay. *)
Definition registry_files (files : list file) (it : item) : GirderClient :=
  registry_with [the_overlay] files it (Ok [tumor "a1"; tumor "a2"]) "PNG".

(** The same registry, its full-list call failing with [e]. *)
Definition registry_failing (e : exn) : GirderClient :=
  registry_with [the_overlay] [png] plain_item (Raise e) "PNG".

Definition background : color := ColorName "background".

Definition blank : Image :=
  {| im_width := 10; im_height := 10; im_pixel := fun _ _ => background |}.

Definition paint (covers : Z -> Z -> bool) (c : color) (im : Image) : Image :=
  {| im_width := im_width im;
     im_height := im_height im;
     im_pixel := fun x y =>
       if in_image im x y && covers x y then c else im_pixel im x y |}.

Definition is_xy (p : list Z) : bool :=
  match p with [_; _] => true | _ => false end.

Definition at_point (p : list Z) (x y : Z) : bool :=
  match p with [px; py] => (x =? px) && (y =? py) | _ => false end.

Definition fits (z : Z) : bool := (- 2 ^ 31 <=? z) && (z <? 2 ^ 31).

(** A JSON array is no color for the library; names and integers are
    taken here as they come. *)
Definition accepted (c : color) : bool :=
  match c with ColorTuple _ => false | _ => true end.

(** A stand-in for the drawing library, for the examples: colors are
    checked first; a rectangle wants its corners in order and includes
    both; a polygon wants two points at least and only its vertices are
    marked; coordinates that do not fit a C [int], where the library's
    answer depends on the platform, are refused. *)
Definition draw (call : draw_call) (im : Image) : result Image :=
  match call with
  | DrawPoint xy fill =>
      if negb (accepted fill) then Raise (TypeError "color must be int or tuple")
      else if forallb is_xy xy && forallb (forallb fits) xy
      then Ok (paint (fun x y => existsb (fun p => at_point p x y) xy) fill im)
      else Raise (OtherError "not drawn by the stand-in")
  | DrawRectangle xy outline fill =>
      if negb (accepted outline && accepted fill)
      then Raise (TypeError "color must be int or tuple")
      else
        match xy with
        | [[x0; y0]; [x1; y1]] =>
            if x1 <? x0
            then Raise (ValueError "x1 must be greater than or equal to x0")
            else if y1 <? y0
            then Raise (ValueError "y1 must be greater than or equal to y0")
            else if fits x0 && fits y0 && fits x1 && fits y1
            then Ok (paint (fun x y =>
                              in_box x0 y0 x1 y1 x y
                              && negb (in_box (x0 + 1) (y0 + 1) (x1 - 1) (y1 - 1) x y))
                           outline
                           (paint (in_box x0 y0 x1 y1) fill im))
            else Raise (OtherError "not drawn by the stand-in")
        | _ => Raise (OtherError "not drawn by the stand-in")
        end
  | DrawPolygon xy outline fill =>
      if negb (accepted outline && accepted fill)
      then Raise (TypeError "color must be int or tuple")
      else if (length xy <? 2)%nat
      then Raise (TypeError "coordinate list must contain at least 2 coordinates")
      else if forallb is_xy xy && forallb (forallb fits) xy
      then Ok (paint (fun x y => existsb (fun p => at_point p x y) xy) outline im)
      else Raise (OtherError "not drawn by the stand-in")
  end.

(** Collaborators: the general decoder reads "PNG" only, the tiled one
    "TIFF" only. *)
Definition ext : Externals :=
  {| read_json := fun _ => Ok cmap;
     splitext := fun _ => ("overlay", ".png");
     temp_name := fun _ suffix => "/tmp/tmp0" ++ suffix;
     Image_open := fun bytes =>
       if String.eqb bytes "PNG" then Ok blank
       else Raise (IOError "cannot identify image file");
     pytiff_open := fun bytes =>
       if String.eqb bytes "TIFF" then Ok blank
       else Raise (IOError "not a TIFF file");
     ImageDraw_call := draw;
     Image_save := fun _ _ => Ok tt |}.

Definition world (c : option GirderClient) : World :=
  {| module_client := c; trace := []; local_files := ∅; temp_counter := 0 |}.

Definition tiff : file :=
  {| file_id := "f3"; file_name := "overlay.tiff"; file_mimeType := "image/tiff" |}.

Definition annotator (c : GirderClient) (colormap : option (gmap string color))
    (annotations : option (list annotation)) : LabelAnnotator :=
  {| client := c; _colormap := colormap; _girder_id := None; _gider_id := None;
     _is_overlay_id := false; _item_id := Some "item1";
     _overlay_item_id := Some "overlay1"; _overlay_file := Some png;
     _annotations := annotations |}.

End Demo.

(** ** What a computation does to the world *)

(** [m] moves the world along [R], whatever it returns. *)
Definition world_steps {A} (R : World -> World -> Prop) (m : M A) : Prop :=
  forall st, R (snd st) (snd (snd (m st))).

Definition is_query (ev : event) : bool :=
  match ev with EvGet _ | EvGetItem _ => true | _ => false end.

Definition is_file_event (ev : event) : bool :=
  match ev with
  | EvTempFile _ | EvDownloadFile _ _ | EvClose _ => true
  | _ => false
  end.

Definition is_save (ev : event) : bool :=
  match ev with EvSave _ => true | _ => false end.

(** The trace grew by events of kind [P] only. *)
Definition grew_by (P : event -> bool) (w w' : World) : Prop :=
  exists evs, trace w' = (trace w ++ evs)%list /\ forallb P evs = true.

(** Registry queries only: local files, temporary names and the
    module-level [client] are as before. *)
Definition only_queried (w w' : World) : Prop :=
  local_files w' = local_files w
  /\ temp_counter w' = temp_counter w
  /\ module_client w' = module_client w
  /\ grew_by is_query w w'.

(** Temporary-file traffic only. *)
Definition only_file_traffic (w w' : World) : Prop :=
  module_client w' = module_client w /\ grew_by is_file_event w w'.

(** No output written. *)
Definition nothing_saved (w w' : World) : Prop :=
  grew_by (fun ev => negb (is_save ev)) w w'.

(** ** Candidates of the file lookup *)

(** [overlay_item['largeImage']['fileId']], [None] on a missing key. *)
Definition large_image_id (it : item) : option string :=
  match item_largeImage it with
  | Some (Some f) => Some f
  | _ => None
  end.

Definition not_large_image (fid : option string) (o : file) : bool :=
  negb (bool_decide (Some (file_id o) = fid)).

(** The end of the lookup on the candidates left. *)
Definition pick_file (self : LabelAnnotator) (oid : string)
    (cands : list file) (w : World)
    : result unit * (LabelAnnotator * World) :=
  if (1 <? length cands)%nat
  then (Raise (ValueError ("multiple files for overlay " ++ oid)), (self, w))
  else match cands with
       | [] => (Raise IndexError, (self, w))
       | f :: _ => (Ok tt, (set_overlay_file_attr (Some f) self, w))
       end.

(** The branch of the [girder_id] setter that finds the pair: the base
    item id and the overlay record. *)
Definition resolve_pair (self : LabelAnnotator) (girder_id : string)
    : M (string * overlay) :=
  if _is_overlay_id self then
    overlay ← client_get (client self) (GetOverlay girder_id);
    mret (overlay_itemId overlay, overlay)
  else
    let item_id := girder_id in
    overlays ← client_get (client self) (GetOverlays item_id);
    match overlays with
    | [] => raise (ValueError ("no overlay for item " ++ item_id))
    | _ =>
        if (1 <? length overlays)%nat then
          raise (ValueError "multiple overlays, specifiy overlay")
        else
          overlay ← lift (index overlays 0);
          mret (item_id, overlay)
    end.

(** How resolving the identifier can fail, by mode. *)
Definition resolution_fails (self : LabelAnnotator) (gid : string) : Prop :=
  if _is_overlay_id self
  then exists e, get (client self) (GetOverlay gid) = Raise e
  else (exists e, get (client self) (GetOverlays gid) = Raise e)
       \/ get (client self) (GetOverlays gid) = Ok []
       \/ (exists o1 o2 rest,
             get (client self) (GetOverlays gid) = Ok (o1 :: o2 :: rest)).

(** ** Elements without depth *)

(** The element with its center and its points cut to two coordinates. *)
Definition flat (e : element) : element :=
  {| el_type := el_type e;
     el_center := take 2 <$> el_center e;
     el_width := el_width e;
     el_height := el_height e;
     el_points := map (take 2) <$> el_points e |}.

Definition labelled (a : annotation) : bool :=
  match ann_name a with Some _ => true | None => false end.

(** ** The script *)

(** The parsed command line. *)
Record Args : Type := {
  args_url : string;
  args_username : string;
  args_password : option string;
  args_id : string;
  args_colormap : string;
  args_output : string;
  args_overlay : bool
}.

Inductive credentials : Type :=
| WithPassword (password : string)
| Interactive.

(** [if args.password:] an empty password prompts like a missing one. *)
Definition credentials_of (args : Args) : credentials :=
  match args_password args with
  | None | Some EmptyString => Interactive
  | Some p => WithPassword p
  end.

Definition bind_module_client (c : GirderClient) (w : World) : World :=
  {| module_client := Some c; trace := trace w;
     local_files := local_files w; temp_counter := temp_counter w |}.

(** The four statements on the annotator. *)
Definition annotate (ext : Externals) (args : Args) : M unit :=
  set_colormap ext (Some (args_colormap args));;
  set_is_overlay_id (args_overlay args);;
  set_girder_id (Some (args_id args));;
  save ext (args_output args).

(** The entry block. [GirderClient_new] is the constructor call
    [girder_client.GirderClient(apiUrl=...)], whose result is bound to
    the module-level name [client] before [authenticate] is called on
    it; the annotator is made after the login. An exception ends the
    script. *)
Definition main (ext : Externals)
    (GirderClient_new : string -> GirderClient)
    (authenticate : GirderClient -> string -> credentials -> result unit)
    (args : Args) (w : World)
    : result unit * (option LabelAnnotator * World) :=
  let client := GirderClient_new (args_url args) in
  let w := bind_module_client client w in
  match authenticate client (args_username args) (credentials_of args) with
  | Raise e => (Raise e, (None, w))
  | Ok _ =>
      let '(r, (label_annotator, w')) := annotate ext args (init client, w) in
      (r, (Some label_annotator, w'))
  end.

(** * Properties *)

(** ** Attributes a computation leaves alone *)

Section Preserves.

Context {B : Type} (proj : LabelAnnotator -> B).

Lemma preserves_ret {A} (a : A) : preserves proj (mret a).
Proof. intros st; reflexivity. Qed.

Lemma preserves_raise {A} (e : exn) : preserves proj (@raise A e).
Proof. intros st; reflexivity. Qed.

Lemma preserves_lift {A} (r : result A) : preserves proj (lift r).
Proof. intros st; reflexivity. Qed.

Lemma preserves_get_self : preserves proj get_self.
Proof. intros st; reflexivity. Qed.

Lemma preserves_get_world : preserves proj get_world.
Proof. intros st; reflexivity. Qed.

Lemma preserves_modify_world f : preserves proj (modify_world f).
Proof. intros st; reflexivity. Qed.

Lemma preserves_modify_self f :
  (forall s, proj (f s) = proj s) -> preserves proj (modify_self f).
Proof. intros Hf st; simpl; apply Hf. Qed.

Lemma preserves_bind {A C} (m : M A) (k : A -> M C) :
  preserves proj m -> (forall a, preserves proj (k a)) ->
  preserves proj (m ≫= k).
Proof.
  intros Hm Hk st. unfold mbind, M_bind, bind.
  specialize (Hm st). destruct (m st) as [[a | e] st'] eqn:E; simpl in *.
  - rewrite Hk. exact Hm.
  - exact Hm.
Qed.

Lemma preserves_try_except {A} (body : M A) handles handler :
  preserves proj body -> (forall e, preserves proj (handler e)) ->
  preserves proj (try_except body handles handler).
Proof.
  intros Hb Hh st. unfold try_except.
  specialize (Hb st). destruct (body st) as [[a | e] st'] eqn:E; simpl in *.
  - exact Hb.
  - destruct (handles e); simpl; [rewrite Hh|]; exact Hb.
Qed.

End Preserves.

Ltac preserves_step :=
  match goal with
  | |- forall _, _ => intro
  | |- preserves _ (mbind _ _) => apply preserves_bind
  | |- preserves _ (mret _) => apply preserves_ret
  | |- preserves _ (ret _) => apply (preserves_ret _ _)
  | |- preserves _ (raise _) => apply preserves_raise
  | |- preserves _ (lift _) => apply preserves_lift
  | |- preserves _ get_self => apply preserves_get_self
  | |- preserves _ get_world => apply preserves_get_world
  | |- preserves _ (modify_world _) => apply preserves_modify_world
  | |- preserves _ (modify_self _) =>
      apply preserves_modify_self; intros []; reflexivity
  | |- preserves _ (try_except _ _ _) => apply preserves_try_except
  | |- preserves _ (match ?x with _ => _ end) => destruct x
  | |- preserves _ (let '(_, _) := ?x in _) => destruct x
  end.

Ltac preserves_auto := repeat preserves_step.

Lemma preserves_client_get {B} (proj : LabelAnnotator -> B) c r :
  preserves proj (client_get c r).
Proof. unfold client_get. preserves_auto. Qed.

Ltac preserves_get :=
  match goal with
  | |- preserves ?p (client_get ?c ?r) => exact (preserves_client_get p c r)
  end.

Lemma preserves_client_getItem {B} (proj : LabelAnnotator -> B) c i :
  preserves proj (client_getItem c i).
Proof. unfold client_getItem. preserves_auto. Qed.

Lemma preserves_global_client {B} (proj : LabelAnnotator -> B) :
  preserves proj global_client.
Proof. unfold global_client. preserves_auto. Qed.

Lemma fetch_each_preserves {B} (proj : LabelAnnotator -> B) c l :
  (forall v s, proj (set_annotations_attr v s) = proj s) ->
  preserves proj (fetch_each c l).
Proof.
  intros Hp. induction l as [| a l IH]; cbn [fetch_each].
  - apply (preserves_ret _ _).
  - apply preserves_bind; [preserves_get | intros full].
    apply preserves_bind; [| intros _; exact IH].
    apply preserves_modify_self. intros s. apply Hp.
Qed.

Lemma _update_annotations_preserves {B} (proj : LabelAnnotator -> B) :
  (forall v s, proj (set_annotations_attr v s) = proj s) ->
  preserves proj _update_annotations.
Proof.
  intros Hp. unfold _update_annotations.
  apply preserves_bind; [apply preserves_get_self | intros self].
  destruct (_item_id self) as [iid |].
  - apply preserves_try_except.
    + apply preserves_bind; [apply preserves_global_client | intros c].
      apply preserves_bind; [preserves_get | intros l].
      apply preserves_modify_self. intros s. apply Hp.
    + intros e. destruct (bool_decide _); [| apply preserves_raise].
      apply preserves_bind; [apply preserves_global_client | intros c].
      apply preserves_bind; [preserves_get | intros l].
      apply preserves_bind; [apply preserves_modify_self; intros s; apply Hp |].
      intros _. apply fetch_each_preserves, Hp.
  - apply preserves_modify_self. intros s. apply Hp.
Qed.

Lemma _update_overlay_file_preserves {B} (proj : LabelAnnotator -> B) :
  (forall v s, proj (set_overlay_file_attr v s) = proj s) ->
  preserves proj _update_overlay_file.
Proof.
  intros Hp. unfold _update_overlay_file.
  apply preserves_bind; [apply preserves_get_self | intros self].
  destruct (_overlay_item_id self) as [oid |].
  - apply preserves_bind; [preserves_get | intros files].
    destruct files as [| f0 files]; [apply preserves_raise |].
    apply preserves_bind.
    + destruct (_ <? _)%nat; [| apply (preserves_ret _ _)].
      apply preserves_bind; [apply preserves_client_getItem | intros it].
      apply (preserves_ret _ _).
    + intros l. destruct (_ <? _)%nat; [apply preserves_raise |].
      apply preserves_bind; [apply preserves_lift | intros f].
      apply preserves_modify_self. intros s. apply Hp.
  - apply preserves_modify_self. intros s. apply Hp.
Qed.

Lemma updates_preserve {B} (proj : LabelAnnotator -> B) :
  (forall v s, proj (set_overlay_file_attr v s) = proj s) ->
  (forall v s, proj (set_annotations_attr v s) = proj s) ->
  preserves proj (_update_overlay_file;; _update_annotations).
Proof.
  intros Hf Ha. apply preserves_bind.
  - apply _update_overlay_file_preserves, Hf.
  - intros _. apply _update_annotations_preserves, Ha.
Qed.

Lemma image_file_preserves {B} (proj : LabelAnnotator -> B) ext :
  preserves proj (image_file ext).
Proof.
  unfold image_file, NamedTemporaryFile, client_downloadFile. preserves_auto.
Qed.

Lemma image_preserves {B} (proj : LabelAnnotator -> B) ext :
  preserves proj (image ext).
Proof.
  unfold image. apply preserves_bind; [apply image_file_preserves |].
  unfold tempfile_name, decode, close. preserves_auto.
Qed.

Lemma save_preserves {B} (proj : LabelAnnotator -> B) ext out :
  preserves proj (save ext out).
Proof.
  unfold save, _draw_annotations.
  apply preserves_bind; [| preserves_auto].
  apply preserves_bind; [apply image_preserves |].
  preserves_auto.
Qed.

Lemma set_colormap_preserves {B} (proj : LabelAnnotator -> B) ext f :
  (forall v s, proj (set_colormap_attr v s) = proj s) ->
  preserves proj (set_colormap ext f).
Proof.
  intros Hp. unfold set_colormap.
  destruct f as [[| a f] |]; try (apply preserves_modify_self; intros s; apply Hp).
  apply preserves_bind; [apply preserves_lift | intros m].
  apply preserves_modify_self; intros s; apply Hp.
Qed.

Lemma set_girder_id_keeps_girder_id g : preserves _girder_id (set_girder_id g).
Proof.
  unfold set_girder_id.
  do 3 (apply preserves_bind; [apply preserves_modify_self; intros []; reflexivity | intros _]).
  apply preserves_bind.
  - destruct g as [gid |]; [| apply (preserves_ret _ _)].
    apply preserves_bind; [apply preserves_get_self | intros self].
    apply preserves_bind.
    + destruct (_is_overlay_id self).
      * apply preserves_bind; [preserves_get | intros o]. apply (preserves_ret _ _).
      * apply preserves_bind; [preserves_get | intros l].
        destruct l as [| o1 l]; [apply preserves_raise |].
        destruct (_ <? _)%nat; [apply preserves_raise |].
        apply preserves_bind; [apply preserves_lift | intros o].
        apply (preserves_ret _ _).
    + intros [iid o].
      apply preserves_bind; [| intros _];
        apply preserves_modify_self; intros []; reflexivity.
  - intros _. apply updates_preserve; intros v []; reflexivity.
Qed.

Lemma run_operation_keeps_girder_id ext op :
  preserves _girder_id (run_operation ext op).
Proof.
  destruct op; cbn [run_operation].
  - apply set_colormap_preserves. intros v []; reflexivity.
  - apply preserves_modify_self. intros []; reflexivity.
  - apply set_girder_id_keeps_girder_id.
  - apply preserves_bind; [apply image_preserves | intros _; apply preserves_ret].
  - apply save_preserves.
Qed.

(** The state [set_girder_id] reaches before it refreshes the overlay file
    and the annotations. *)
Lemma set_girder_id_resolve_one self w gid o :
  _is_overlay_id self = false ->
  get (client self) (GetOverlays gid) = Ok [o] ->
  exists st1,
    _item_id (fst st1) = Some gid /\
    _overlay_item_id (fst st1) = Some (overlay_overlayItemId o) /\
    set_girder_id (Some gid) (self, w)
    = (_update_overlay_file;; _update_annotations) st1.
Proof.
  intros Hmode Hget. destruct self as [c cm g g' ov it oit ofile an].
  simpl in Hmode, Hget. subst ov.
  eexists. split; [| split]; cycle 2.
  - unfold set_girder_id. unfold mbind at 1 2 3 4, M_bind, bind at 1 2 3 4.
    simpl. unfold client_get, mbind, M_bind, bind, lift. simpl.
    rewrite Hget. simpl. reflexivity.
  - reflexivity.
  - reflexivity.
Qed.

Lemma prefix_app (p s : string) : String.prefix p (p ++ s) = true.
Proof.
  induction p as [| a p IH]; simpl.
  - destruct s; reflexivity.
  - destruct (Ascii.ascii_dec a a); [exact IH | congruence].
Qed.

(** ** Resolving the identifier *)

(** C9. Whatever operations are run on an instance, successful non-null
    identifier assignments among them, the attribute the [girder_id]
    getter reads stays as the operation found it, hence [None] from
    construction on: the setter writes the identifier to another
    attribute. *)
Theorem girder_id_getter_stays_None (ext : Externals) :
  (forall op st,
     girder_id (fst (snd (run_operation ext op st))) = girder_id (fst st))
  /\ (forall gid st,
        _gider_id (fst (snd (set_girder_id (Some gid) st))) = Some (Some gid))
  /\ (forall c w ops,
        girder_id (fst (run_operations ext ops (init c, w))) = None).
Proof.
  assert (Hop : forall op st,
    girder_id (fst (snd (run_operation ext op st))) = girder_id (fst st)).
  { intros op st. apply (run_operation_keeps_girder_id ext op). }
  split; [exact Hop | split].
  - intros gid st.
    assert (Hk : preserves _gider_id
              (modify_self (set_item_id_attr None);;
               modify_self (set_overlay_item_id_attr None);;
               match Some gid with
               | Some girder_id =>
                   self ← get_self;
                   '(item_id, overlay) ←
                     (if _is_overlay_id self then
                        overlay ← client_get (client self) (GetOverlay girder_id);
                        mret (overlay_itemId overlay, overlay)
                      else
                        let item_id := girder_id in
                        overlays ← client_get (client self) (GetOverlays item_id);
                        match overlays with
                        | [] => raise (ValueError ("no overlay for item " ++ item_id))
                        | _ =>
                            if (1 <? length overlays)%nat then
                              raise (ValueError "multiple overlays, specifiy overlay")
                            else
                              overlay ← lift (index overlays 0);
                              mret (item_id, overlay)
                        end);
                   modify_self (set_item_id_attr (Some item_id));;
                   modify_self (set_overlay_item_id_attr
                                  (Some (overlay_overlayItemId overlay)))
               | None => mret tt
               end;;
               _update_overlay_file;;
               _update_annotations)).
    { do 2 (apply preserves_bind;
            [apply preserves_modify_self; intros []; reflexivity | intros _]).
      apply preserves_bind.
      - apply preserves_bind; [apply preserves_get_self | intros self].
        apply preserves_bind.
        + destruct (_is_overlay_id self).
          * apply preserves_bind; [preserves_get | intros o].
            apply (preserves_ret _ _).
          * apply preserves_bind; [preserves_get | intros l].
            destruct l as [| o1 l]; [apply preserves_raise |].
            destruct (_ <? _)%nat; [apply preserves_raise |].
            apply preserves_bind; [apply preserves_lift | intros o].
            apply (preserves_ret _ _).
        + intros [iid o].
          apply preserves_bind; [| intros _];
            apply preserves_modify_self; intros []; reflexivity.
      - intros _. apply updates_preserve; intros v []; reflexivity. }
    unfold set_girder_id. unfold mbind at 1, M_bind, bind at 1.
    cbn [modify_self]. rewrite Hk. destruct st as [[] w]. reflexivity.
  - intros c w ops.
    assert (Hinv : forall st, girder_id (fst st) = None ->
              girder_id (fst (run_operations ext ops st)) = None).
    { induction ops as [| op ops IH]; intros st Hst; simpl; [exact Hst |].
      apply IH. rewrite Hop. exact Hst. }
    apply Hinv. reflexivity.
Qed.

(** C5. In any state, setting the identifier to [None] succeeds, leaves
    the base item id, the overlay item id, the overlay file and the
    annotations unset, and leaves the world as it was: no call reaches
    the registry. *)
Theorem set_girder_id_None_clears (self : LabelAnnotator) (w : World) :
  let out := set_girder_id None (self, w) in
  fst out = Ok tt
  /\ item_id (fst (snd out)) = None
  /\ overlay_item_id (fst (snd out)) = None
  /\ overlay_file (fst (snd out)) = None
  /\ _annotations (fst (snd out)) = None
  /\ annotations (fst (snd out)) = {| yielded := []; raised := None |}
  /\ snd (snd out) = w
  /\ List.filter is_registry_call (trace (snd (snd out)))
     = List.filter is_registry_call (trace w).
Proof.
  destruct self as [c cm g g' ov it oit ofile an].
  cbv beta zeta. repeat split.
Qed.

(** C4. In base-item mode the registry is asked for the overlays of the
    identifier: none makes the assignment fail with the not-found error,
    more than one with the ambiguity error, and exactly one leaves its
    overlay item id stored next to the identifier as base item id,
    whatever the later refresh of file and annotations does. *)
Theorem resolve_base_item (self : LabelAnnotator) (w : World) (gid : string) :
  _is_overlay_id self = false ->
  (get (client self) (GetOverlays gid) = Ok [] ->
     let out := set_girder_id (Some gid) (self, w) in
     fst out = Raise (ValueError ("no overlay for item " ++ gid))
     /\ (forall e, fst out = Raise e -> kind_of e = Some NotFoundError)
     /\ item_id (fst (snd out)) = None
     /\ overlay_item_id (fst (snd out)) = None)
  /\ (forall o1 o2 rest,
        get (client self) (GetOverlays gid) = Ok (o1 :: o2 :: rest) ->
        let out := set_girder_id (Some gid) (self, w) in
        fst out = Raise (ValueError "multiple overlays, specifiy overlay")
        /\ (forall e, fst out = Raise e -> kind_of e = Some AmbiguousError)
        /\ item_id (fst (snd out)) = None
        /\ overlay_item_id (fst (snd out)) = None)
  /\ (forall o,
        get (client self) (GetOverlays gid) = Ok [o] ->
        let out := set_girder_id (Some gid) (self, w) in
        item_id (fst (snd out)) = Some gid
        /\ overlay_item_id (fst (snd out)) = Some (overlay_overlayItemId o)).
Proof.
  intros Hmode. split; [| split].
  - intros Hget out.
    assert (E : out = (Raise (ValueError ("no overlay for item " ++ gid)),
                       (set_overlay_item_id_attr None
                          (set_item_id_attr None
                             (set_gider_id_attr (Some gid) self)),
                        log (EvGet (GetOverlays gid)) w))).
    { subst out. destruct self as [c cm g g' ov it oit ofile an].
      simpl in Hmode, Hget. subst ov.
      unfold set_girder_id, client_get, mbind, M_bind, bind, lift. simpl.
      rewrite Hget. reflexivity. }
    rewrite E. cbn [fst snd]. repeat split.
    intros e [= <-]. unfold kind_of. rewrite prefix_app. reflexivity.
  - intros o1 o2 rest Hget out.
    assert (E : out = (Raise (ValueError "multiple overlays, specifiy overlay"),
                       (set_overlay_item_id_attr None
                          (set_item_id_attr None
                             (set_gider_id_attr (Some gid) self)),
                        log (EvGet (GetOverlays gid)) w))).
    { subst out. destruct self as [c cm g g' ov it oit ofile an].
      simpl in Hmode, Hget. subst ov.
      unfold set_girder_id, client_get, mbind, M_bind, bind, lift. simpl.
      rewrite Hget. reflexivity. }
    rewrite E. cbn [fst snd]. repeat split.
    intros e [= <-]. vm_compute. reflexivity.
  - intros o Hget out.
    destruct (set_girder_id_resolve_one self w gid o Hmode Hget)
      as (st1 & Hitem & Hov & E).
    subst out. rewrite E. unfold item_id, overlay_item_id.
    rewrite !(updates_preserve _) by (intros v []; reflexivity).
    split; assumption.
Qed.

(** ** Locating the overlay file *)

Lemma filter_all_excluded (fid : string) (l : list file) :
  Forall (fun o => file_id o = fid) l ->
  List.filter (fun o => negb (bool_decide (Some (file_id o) = Some fid))) l = [].
Proof.
  induction 1 as [| o l Ho _ IH]; simpl; [reflexivity |].
  rewrite bool_decide_eq_true_2 by (f_equal; exact Ho). exact IH.
Qed.

(** C10. With an overlay item id set, two registry answers make the file
    lookup index an empty candidate list, which raises [IndexError], an
    exception outside the error kinds of the design: (1) the item has
    files but none whose media type starts with "image"; (2) several
    image files remain and every one of them carries the item's large
    image file id, so the exclusion removes them all. The stored overlay
    file is left as it was. *)
Theorem overlay_file_empty_candidates (self : LabelAnnotator) (w : World)
    (oid : string) :
  _overlay_item_id self = Some oid ->
  (forall files,
     get (client self) (GetItemFiles oid 2) = Ok files ->
     files <> [] ->
     List.filter is_image files = [] ->
     let out := _update_overlay_file (self, w) in
     fst out = Raise IndexError
     /\ kind_of IndexError = None
     /\ overlay_file (fst (snd out)) = overlay_file self)
  /\ (forall files it fid,
        get (client self) (GetItemFiles oid 2) = Ok files ->
        (1 < length (List.filter is_image files))%nat ->
        getItem (client self) oid = Ok it ->
        item_largeImage it = Some (Some fid) ->
        Forall (fun o => file_id o = fid) (List.filter is_image files) ->
        let out := _update_overlay_file (self, w) in
        fst out = Raise IndexError
        /\ kind_of IndexError = None
        /\ overlay_file (fst (snd out)) = overlay_file self).
Proof.
  intros Hoid. destruct self as [c cm g g' ov it0 oit ofile an].
  simpl in Hoid. subst oit. split.
  - intros files Hget Hne Himg out. subst out.
    destruct files as [| f files]; [congruence |].
    unfold _update_overlay_file, client_get, mbind, M_bind, bind, lift.
    cbn -[List.filter String.prefix]. cbn -[List.filter String.prefix] in Hget.
    rewrite Hget. fold is_image. rewrite Himg.
    cbn. repeat split.
  - intros files it fid Hget Hlen Hitem Hlarge Hall out. subst out.
    destruct files as [| f files]; [simpl in Hlen; lia |].
    unfold _update_overlay_file, client_get, client_getItem,
      mbind, M_bind, bind, lift.
    cbn -[List.filter String.prefix Nat.ltb].
    cbn -[List.filter String.prefix] in Hget, Hitem.
    rewrite Hget. fold is_image.
    apply Nat.ltb_lt in Hlen. rewrite Hlen.
    cbn -[List.filter String.prefix Nat.ltb].
    rewrite Hitem, Hlarge.
    cbn -[List.filter String.prefix Nat.ltb].
    rewrite (filter_all_excluded fid _ Hall).
    cbn. repeat split.
Qed.

(** ** Fetching the annotations *)

Lemma trace_log_all evs w : trace (log_all evs w) = (trace w ++ evs)%list.
Proof.
  revert w. induction evs as [| ev evs IH]; intros w; simpl.
  - symmetry. apply app_nil_r.
  - unfold log_all in IH. rewrite IH. simpl. rewrite <- app_assoc. reflexivity.
Qed.

Lemma module_client_log_all evs w :
  module_client (log_all evs w) = module_client w.
Proof.
  revert w. induction evs as [| ev evs IH]; intros w; simpl; [reflexivity |].
  unfold log_all in IH. rewrite IH. reflexivity.
Qed.

Lemma set_annotations_attr_twice v v' s :
  set_annotations_attr v (set_annotations_attr v' s) = set_annotations_attr v s.
Proof. destruct s; reflexivity. Qed.

(** The loop of the fallback when every follow-up call succeeds: the
    fetched records are appended in the order of the summaries. *)
Lemma fetch_each_ok c summaries fulls :
  Forall2 (fun s a => get c (GetAnnotation (ann_id s)) = Ok a) summaries fulls ->
  forall self w,
    fetch_each c summaries (self, w)
    = (Ok tt,
       (match summaries with
        | [] => self
        | _ => set_annotations_attr
                 (Some (default [] (_annotations self) ++ fulls)%list) self
        end,
        log_all (map fetch_event summaries) w)).
Proof.
  induction 1 as [| s a summaries fulls Hget Hrest IH]; intros self w.
  - reflexivity.
  - cbn [fetch_each]. unfold client_get, mbind, M_bind, bind, lift.
    cbn [modify_world modify_self fst snd]. cbn in Hget. rewrite Hget.
    rewrite IH. cbn [map log_all fold_left]. f_equal. f_equal.
    destruct summaries as [| s' summaries].
    + inversion Hrest; subst. reflexivity.
    + rewrite set_annotations_attr_twice.
      destruct self; cbn. rewrite <- app_assoc. reflexivity.
Qed.

(** C3. With a base item id set and the name [client] bound: (1) when the
    full-list call fails with HttpError 400, the summaries are listed and
    each full record is fetched by id; if those calls succeed the stored
    sequence is the sequence of per-id results, in the order and number
    of the summaries, and the calls made are exactly these; (2) any other
    exception of the full-list call propagates, nothing else is called
    and the stored annotations are left as they were. *)
Theorem annotations_fallback (self : LabelAnnotator) (w : World)
    (iid : string) (c : GirderClient) :
  _item_id self = Some iid ->
  module_client w = Some c ->
  (forall summaries fulls,
     get c (GetItemAnnotations iid) = Raise (HttpError 400) ->
     get c (GetAnnotations iid 0) = Ok summaries ->
     Forall2 (fun s a => get c (GetAnnotation (ann_id s)) = Ok a)
             summaries fulls ->
     let out := _update_annotations (self, w) in
     fst out = Ok tt
     /\ _annotations (fst (snd out)) = Some fulls
     /\ length fulls = length summaries
     /\ trace (snd (snd out))
        = (trace w ++ EvGet (GetItemAnnotations iid)
                   :: EvGet (GetAnnotations iid 0)
                   :: map fetch_event summaries)%list)
  /\ (forall e,
        get c (GetItemAnnotations iid) = Raise e ->
        e <> HttpError 400 ->
        let out := _update_annotations (self, w) in
        fst out = Raise e
        /\ _annotations (fst (snd out)) = _annotations self
        /\ trace (snd (snd out))
           = (trace w ++ [EvGet (GetItemAnnotations iid)])%list).
Proof.
  intros Hitem Hclient.
  destruct self as [c0 cm g g' ov it oit ofile an].
  destruct w as [mc tr fs n]. simpl in Hitem, Hclient. subst it mc. split.
  - intros summaries fulls Hprimary Hlist Hfull out. subst out.
    unfold _update_annotations, try_except, global_client, client_get,
      mbind, M_bind, bind, lift.
    cbn [get_self get_world modify_world modify_self fst snd _item_id
         module_client log ret raise mret M_ret].
    cbn in Hprimary, Hlist. rewrite Hprimary.
    cbn [is_HttpError http_status]. rewrite bool_decide_eq_true_2 by reflexivity.
    cbn -[fetch_each]. rewrite Hlist.
    cbn -[fetch_each]. rewrite (fetch_each_ok c summaries fulls Hfull).
    cbn [fst snd]. repeat split.
    + destruct summaries; [inversion Hfull; reflexivity | reflexivity].
    + symmetry. eapply Forall2_length; eassumption.
    + rewrite trace_log_all. cbn [trace log]. rewrite <- !app_assoc. reflexivity.
  - intros e Hprimary Hne out. subst out.
    unfold _update_annotations, try_except, global_client, client_get,
      mbind, M_bind, bind, lift.
    cbn [get_self get_world modify_world modify_self fst snd _item_id
         module_client log ret raise mret M_ret].
    cbn in Hprimary. rewrite Hprimary.
    destruct e as [| | | | | status | | | |]; cbn [is_HttpError];
      try (cbn; repeat split; fail).
    rewrite bool_decide_eq_false_2.
    + cbn. repeat split.
    + cbn [http_status]. intros [= ->]. apply Hne. reflexivity.
Qed.

(** ** Grouping by contiguous run *)

Section Groupby.

Context {A K : Type} `{EqDecision K} (key : A -> K).

Lemma groupby_from_same tgtkey grp g l :
  Forall (fun a => key a = tgtkey) g ->
  groupby_from key tgtkey grp (g ++ l)
  = groupby_from key tgtkey (rev g ++ grp) l.
Proof.
  intros Hg. revert grp. induction Hg as [| x g Hx _ IH]; intros grp.
  - reflexivity.
  - cbn [app groupby_from]. rewrite decide_True by exact Hx.
    rewrite IH. cbn [rev]. rewrite <- app_assoc. reflexivity.
Qed.

Lemma groupby_from_runs runs :
  forall tgtkey grp,
    Forall (run_ok key) runs ->
    adjacent_differ (tgtkey :: map fst runs) ->
    groupby_from key tgtkey grp (concat (map snd runs))
    = (tgtkey, rev grp) :: runs.
Proof.
  induction runs as [| [k g] runs IH]; intros tgtkey grp Hok Hadj.
  - reflexivity.
  - apply Forall_cons in Hok as [[Hne Hkeys] Hrest].
    cbn [fst snd] in Hne, Hkeys. cbn [map fst] in Hadj.
    destruct Hadj as [Hdiff Hadj].
    destruct g as [| x g]; [congruence |].
    apply Forall_cons in Hkeys as [Hx Hg].
    cbn [map snd concat app groupby_from].
    rewrite decide_False by (rewrite Hx; congruence).
    rewrite Hx. rewrite (groupby_from_same _ _ _ _ Hg).
    rewrite (IH _ _ Hrest Hadj).
    rewrite rev_app_distr, rev_involutive. reflexivity.
Qed.

(** [groupby] returns the maximal runs of its argument, in order. *)
Lemma groupby_runs runs :
  is_runs key runs -> groupby key (concat (map snd runs)) = runs.
Proof.
  intros [Hok Hadj]. destruct runs as [| [k g] runs]; [reflexivity |].
  apply Forall_cons in Hok as [[Hne Hkeys] Hrest].
  cbn [fst snd] in Hne, Hkeys. cbn [map fst] in Hadj.
  destruct g as [| x g]; [congruence |].
  apply Forall_cons in Hkeys as [Hx Hg].
  cbn [map snd concat app groupby]. rewrite Hx.
  rewrite (groupby_from_same _ _ _ _ Hg).
  rewrite (groupby_from_runs _ _ _ Hrest Hadj).
  rewrite rev_app_distr, rev_involutive. reflexivity.
Qed.

Lemma adjacent_differ_insert (l1 l2 : list K) (k k' : K) :
  k <> k' ->
  adjacent_differ (l1 ++ k :: l2) ->
  adjacent_differ (l1 ++ k :: k' :: k :: l2).
Proof.
  intros Hk. induction l1 as [| a l1 IH]; intros Hadj.
  - cbn [app adjacent_differ]. repeat split; [exact Hk | congruence | exact Hadj].
  - destruct l1 as [| b l1].
    + cbn [app] in *. destruct Hadj as [Hab Hadj].
      split; [exact Hab | apply IH; exact Hadj].
    + cbn [app] in *. destruct Hadj as [Hab Hadj].
      split; [exact Hab | apply IH; exact Hadj].
Qed.

(** The keys of the groups are the keys of the records. *)
Lemma groupby_from_keys l :
  forall tgtkey grp k,
    In k (map fst (groupby_from key tgtkey grp l))
    <-> k = tgtkey \/ In k (map key l).
Proof.
  induction l as [| x l IH]; intros tgtkey grp k; cbn [groupby_from].
  - cbn. intuition congruence.
  - destruct (decide (key x = tgtkey)) as [E | E].
    + rewrite IH. cbn [map In]. rewrite E. intuition congruence.
    + cbn [map fst In]. rewrite IH. cbn [map In]. intuition congruence.
Qed.

Lemma groupby_keys l k :
  In k (map fst (groupby key l)) <-> In k (map key l).
Proof.
  destruct l as [| x l]; [reflexivity |].
  cbn [groupby]. rewrite groupby_from_keys. cbn [map In]. intuition congruence.
Qed.

End Groupby.

(** ** Grouping annotations and joining them with colors *)

Lemma keyed_snd runs : map snd (keyed runs) = map snd runs.
Proof. unfold keyed. rewrite map_map. reflexivity. Qed.

Lemma keyed_app r1 r2 : keyed (r1 ++ r2) = (keyed r1 ++ keyed r2)%list.
Proof. unfold keyed. apply map_app. Qed.

Lemma annotations_loop_labelled colormap runs :
  complete colormap runs ->
  raised (annotations_loop colormap (keyed runs)) = None
  /\ colored colormap runs (yielded (annotations_loop colormap (keyed runs))).
Proof.
  induction 1 as [| [n g] runs [c Hc] _ [IHr IHy]]; cbn.
  - split; [reflexivity | constructor].
  - cbn in Hc. rewrite Hc. cbn. split; [exact IHr |].
    constructor; [split; [exact Hc | reflexivity] | exact IHy].
Qed.

(** A group keyed [None] is passed over. *)
Lemma annotations_loop_skip colormap l1 g l2 :
  annotations_loop colormap (l1 ++ (None, g) :: l2)
  = annotations_loop colormap (l1 ++ l2).
Proof.
  induction l1 as [| [[n |] g1] l1 IH]; cbn; [reflexivity | | exact IH].
  destruct (colormap !! n); [rewrite IH |]; reflexivity.
Qed.

Lemma colored_concat colormap runs out :
  colored colormap runs out ->
  concat (map snd out) = concat (map snd runs).
Proof.
  induction 1 as [| r o runs out [_ E] _ IH]; cbn; [reflexivity |].
  rewrite E, IH. reflexivity.
Qed.

Lemma run_ok_split (label : string) (g1 g2 : list annotation) :
  g1 <> [] -> g2 <> [] ->
  run_ok keyfunc (Some label, (g1 ++ g2)%list) ->
  run_ok keyfunc (Some label, g1) /\ run_ok keyfunc (Some label, g2).
Proof.
  intros H1 H2 [_ Hall]. cbn in Hall. apply Forall_app in Hall as [F1 F2].
  split; split; assumption.
Qed.

(** The raised exception, when a label of the sequence has no color. *)
Lemma annotations_loop_missing colormap groups :
  (exists n g, In (Some n, g) groups /\ colormap !! n = None) ->
  exists n g,
    In (Some n, g) groups /\ colormap !! n = None
    /\ raised (annotations_loop colormap groups)
       = Some (ValueError
                 ("no color mapping for annotation " ++ dquote ++ n ++ dquote))
    /\ Forall (fun o => exists n', colormap !! n' = Some (fst o))
              (yielded (annotations_loop colormap groups)).
Proof.
  induction groups as [| [[n0 |] g0] groups IH]; intros (n & g & Hin & Hmiss).
  - destruct Hin.
  - cbn. destruct (colormap !! n0) as [c |] eqn:E.
    + destruct Hin as [[= -> ->] | Hin]; [congruence |].
      destruct IH as (n' & g' & Hin' & Hmiss' & Hr & Hy); [eauto |].
      exists n', g'. cbn. repeat split; auto.
      constructor; [exists n0; exact E | exact Hy].
    + exists n0, g0. cbn. repeat split; auto.
  - destruct Hin as [[=] | Hin].
    destruct IH as (n' & g' & Hin' & Hmiss' & Hr & Hy); [eauto |].
    exists n', g'. cbn. repeat split; auto.
Qed.

(** C1, as the code has it. (1) When the sequence is made of runs of
    labelled records, adjacent runs differing in label, and every label
    has a color, the generator ends normally having yielded exactly one
    (color, group) pair per run, in source order. (2) When one unlabeled
    record stands inside a run, between two non-empty parts of it, the
    record is yielded in no group and the two parts are yielded as two
    consecutive groups of the run's color. *)
Theorem grouping_by_contiguous_run (self : LabelAnnotator)
    (colormap : gmap string color) :
  _colormap self = Some colormap ->
  (forall runs,
     labelled_runs runs ->
     complete colormap runs ->
     _annotations self = Some (concat (map snd runs)) ->
     raised (annotations self) = None
     /\ colored colormap runs (yielded (annotations self))
     /\ length (yielded (annotations self)) = length runs)
  /\ (forall pre post label g1 g2 u,
        labelled_runs (pre ++ (label, g1 ++ g2) :: post)%list ->
        complete colormap (pre ++ (label, g1 ++ g2) :: post)%list ->
        g1 <> [] -> g2 <> [] ->
        ann_name u = None ->
        _annotations self
        = Some (concat (map snd pre) ++ (g1 ++ u :: g2)
                ++ concat (map snd post))%list ->
        raised (annotations self) = None
        /\ colored colormap (pre ++ (label, g1) :: (label, g2) :: post)%list
                   (yielded (annotations self))
        /\ concat (map snd (yielded (annotations self)))
           = (concat (map snd pre) ++ (g1 ++ g2)
              ++ concat (map snd post))%list).
Proof.
  intros Hcm. split.
  - intros runs Hruns Hcomplete Hann.
    unfold annotations, _annotations_iterator. rewrite Hann, Hcm.
    rewrite <- keyed_snd.
    rewrite (groupby_runs keyfunc _ Hruns).
    destruct (annotations_loop_labelled colormap runs Hcomplete) as [Hr Hy].
    repeat split; [exact Hr | exact Hy |].
    symmetry. eapply Forall2_length; exact Hy.
  - intros pre post label g1 g2 u [Hok Hadj] Hcomplete Hg1 Hg2 Hu Hann.
    set (runs' := (pre ++ (label, g1) :: (label, g2) :: post)%list).
    assert (Hcomplete' : complete colormap runs').
    { unfold complete, runs' in *. rewrite Forall_app in Hcomplete |- *.
      destruct Hcomplete as [Hpre Hrest].
      apply Forall_cons in Hrest as [Hl Hpost].
      split; [exact Hpre |]. repeat constructor; assumption. }
    assert (Hgroups :
      groupby keyfunc (concat (map snd pre) ++ (g1 ++ u :: g2)
                       ++ concat (map snd post))%list
      = (keyed pre ++ (Some label, g1) :: (None, [u]) :: (Some label, g2)
         :: keyed post)%list).
    { rewrite <- (groupby_runs keyfunc
        (keyed pre ++ (Some label, g1) :: (None, [u]) :: (Some label, g2)
         :: keyed post)%list).
      - f_equal. rewrite map_app, concat_app. cbn [map snd concat].
        rewrite !keyed_snd, <- !app_assoc. reflexivity.
      - rewrite keyed_app in Hok, Hadj. cbn [keyed map fst snd] in Hok, Hadj.
        fold (keyed post) in Hok, Hadj.
        apply Forall_app in Hok as [Hpre Hrest].
        apply Forall_cons in Hrest as [Hrun Hpost].
        destruct (run_ok_split label g1 g2 Hg1 Hg2 Hrun) as [R1 R2].
        split.
        + apply Forall_app. split; [exact Hpre |].
          repeat (apply Forall_cons; split); try assumption.
          split; [discriminate | repeat constructor; exact Hu].
        + rewrite map_app in Hadj |- *. cbn [map fst] in Hadj |- *.
          apply adjacent_differ_insert; [discriminate | exact Hadj]. }
    unfold annotations, _annotations_iterator. rewrite Hann, Hcm, Hgroups.
    replace (keyed pre ++ (Some label, g1) :: (None, [u]) :: (Some label, g2)
             :: keyed post)%list
      with ((keyed pre ++ [(Some label, g1)]) ++ (None, [u])
            :: (Some label, g2) :: keyed post)%list
      by (rewrite <- app_assoc; reflexivity).
    rewrite annotations_loop_skip.
    replace ((keyed pre ++ [(Some label, g1)]) ++ (Some label, g2) :: keyed post)%list
      with (keyed runs')
      by (unfold runs'; rewrite keyed_app, <- app_assoc; reflexivity).
    destruct (annotations_loop_labelled colormap runs' Hcomplete') as [Hr Hy].
    repeat split; [exact Hr | exact Hy |].
    rewrite (colored_concat _ _ _ Hy). unfold runs'.
    rewrite map_app, concat_app. cbn [map snd concat].
    rewrite <- !app_assoc. reflexivity.
Qed.

(** The sequence [tumor; unlabeled; tumor]: one run of equal labels with
    an unlabeled record in its middle. The generator yields two groups,
    not one. *)
Lemma unlabeled_record_splits_run :
  let self := Demo.annotator Demo.registry (Some Demo.cmap)
                (Some [Demo.tumor "a1"; Demo.unlabeled; Demo.tumor "a2"]) in
  yielded (annotations self)
  = [(Demo.red, [Demo.tumor "a1"]); (Demo.red, [Demo.tumor "a2"])]
  /\ ~ (exists group, yielded (annotations self) = [group]).
Proof.
  assert (E : yielded (annotations
                (Demo.annotator Demo.registry (Some Demo.cmap)
                   (Some [Demo.tumor "a1"; Demo.unlabeled; Demo.tumor "a2"])))
              = [(Demo.red, [Demo.tumor "a1"]); (Demo.red, [Demo.tumor "a2"])]).
  { vm_compute. reflexivity. }
  cbv zeta. split; [exact E |].
  intros [group Hg]. rewrite E in Hg. discriminate.
Qed.

Lemma grouping_by_contiguous_run_witness :
  let five := Demo.annotator Demo.registry (Some Demo.cmap)
                (Some [Demo.tumor "a1"; Demo.tumor "a2"; Demo.stroma "b1";
                       Demo.stroma "b2"; Demo.necrosis "c1"]) in
  let split := Demo.annotator Demo.registry (Some Demo.cmap)
                (Some [Demo.tumor "a1"; Demo.unlabeled; Demo.tumor "a2";
                       Demo.stroma "b1"]) in
  (raised (annotations five) = None /\ length (yielded (annotations five)) = 3%nat)
  /\ (raised (annotations split) = None
      /\ concat (map snd (yielded (annotations split)))
         = [Demo.tumor "a1"; Demo.tumor "a2"; Demo.stroma "b1"]).
Proof.
  cbv zeta. split.
  - destruct (grouping_by_contiguous_run
                (Demo.annotator Demo.registry (Some Demo.cmap)
                   (Some [Demo.tumor "a1"; Demo.tumor "a2"; Demo.stroma "b1";
                          Demo.stroma "b2"; Demo.necrosis "c1"]))
                Demo.cmap eq_refl) as [H1 _].
    destruct (H1 [("tumor", [Demo.tumor "a1"; Demo.tumor "a2"]);
                  ("stroma", [Demo.stroma "b1"; Demo.stroma "b2"]);
                  ("necrosis", [Demo.necrosis "c1"])]) as (Hr & _ & Hl).
    + split.
      * repeat constructor; discriminate.
      * cbn. repeat split; discriminate.
    + repeat constructor; eexists; vm_compute; reflexivity.
    + reflexivity.
    + split; [exact Hr | exact Hl].
  - destruct (grouping_by_contiguous_run
                (Demo.annotator Demo.registry (Some Demo.cmap)
                   (Some [Demo.tumor "a1"; Demo.unlabeled; Demo.tumor "a2";
                          Demo.stroma "b1"]))
                Demo.cmap eq_refl) as [_ H2].
    destruct (H2 [] [("stroma", [Demo.stroma "b1"])] "tumor"
                 [Demo.tumor "a1"] [Demo.tumor "a2"] Demo.unlabeled)
      as (Hr & _ & Hc).
    + split.
      * repeat constructor; discriminate.
      * cbn. repeat split; discriminate.
    + repeat constructor; eexists; vm_compute; reflexivity.
    + discriminate.
    + discriminate.
    + reflexivity.
    + reflexivity.
    + split; [exact Hr | exact Hc].
Defined.

(** C8. (1) With annotations fetched and no color map set, the generator
    raises the configuration error before yielding anything. (2) When a
    record's label has no entry in the color map, the generator ends with
    the configuration error naming a label of the sequence that has no
    entry; every group yielded before has a color of the map. (3) Loading
    a color map checks no entry: the setter stores whatever mapping the
    file holds and succeeds. *)
Theorem grouping_needs_colors (ext : Externals) :
  (forall self l,
     _annotations self = Some l -> _colormap self = None ->
     annotations self
     = {| yielded := []; raised := Some (ValueError "no color mapping set") |}
     /\ kind_of (ValueError "no color mapping set") = Some ConfigError)
  /\ (forall self l colormap a n,
        _annotations self = Some l -> _colormap self = Some colormap ->
        In a l -> ann_name a = Some n -> colormap !! n = None ->
        exists n' a',
          In a' l /\ ann_name a' = Some n' /\ colormap !! n' = None
          /\ raised (annotations self)
             = Some (ValueError
                 ("no color mapping for annotation " ++ dquote ++ n' ++ dquote))
          /\ kind_of (ValueError
               ("no color mapping for annotation " ++ dquote ++ n' ++ dquote))
             = Some ConfigError
          /\ Forall (fun o => exists n0, colormap !! n0 = Some (fst o))
                    (yielded (annotations self)))
  /\ (forall self w f m,
        f <> "" -> read_json ext f = Ok m ->
        set_colormap ext (Some f) (self, w)
        = (Ok tt, (set_colormap_attr (Some m) self, w))).
Proof.
  split; [| split].
  - intros self l Hann Hcm. unfold annotations, _annotations_iterator.
    rewrite Hann, Hcm. split; reflexivity.
  - intros self l colormap a n Hann Hcm Hin Hname Hmiss.
    unfold annotations, _annotations_iterator. rewrite Hann, Hcm.
    assert (Hgroup : exists n0 g, In (Some n0, g) (groupby keyfunc l)
                                  /\ colormap !! n0 = None).
    { assert (Hk : In (Some n) (map fst (groupby keyfunc l))).
      { apply groupby_keys. apply in_map_iff. exists a. split; assumption. }
      apply in_map_iff in Hk as ([k g] & Hfst & Hg). cbn in Hfst. subst k.
      exists n, g. split; assumption. }
    destruct (annotations_loop_missing colormap _ Hgroup)
      as (n' & g' & Hin' & Hmiss' & Hr & Hy).
    assert (Hk : In (Some n') (map keyfunc l)).
    { apply (groupby_keys keyfunc). apply in_map_iff.
      exists (Some n', g'). split; [reflexivity | exact Hin']. }
    apply in_map_iff in Hk as (a' & Hname' & Ha').
    exists n', a'. repeat split; try assumption. 
  - intros self w f m Hf Hread. destruct f as [| ch f]; [congruence |].
    unfold set_colormap, mbind, M_bind, bind, lift. rewrite Hread. reflexivity.
Qed.

(** ** Rendering *)


Lemma draw_one_element ext color e call :
  draw_element color e = Ok call ->
  forall im, draw_elements ext color [e] im = ImageDraw_call ext call im.
Proof.
  intros Hcall im. cbn [draw_elements]. rewrite Hcall.
  unfold mbind, result_bind.
  destruct (ImageDraw_call ext call im); reflexivity.
Qed.





(** ** Acquiring the image *)

Lemma image_file_downloads ext self w f bytes :
  _overlay_file self = Some f ->
  downloadFile (client self) (file_id f) = Ok bytes ->
  image_file ext (self, w)
  = (Ok (Some (temp_name ext (temp_counter w)
                 (snd (splitext ext (file_name f))))),
     (self, downloaded ext f bytes w)).
Proof.
  intros Hf Hd. unfold image_file, NamedTemporaryFile, client_downloadFile,
    mbind, M_bind, bind, lift.
  cbn -[insert]. rewrite Hf. cbn -[insert]. rewrite Hd. reflexivity.
Qed.

Lemma decode_downloaded ext decoder f bytes self w :
  decode decoder
    (temp_name ext (temp_counter w) (snd (splitext ext (file_name f))))
    (self, downloaded ext f bytes w)
  = (decoder bytes, (self, downloaded ext f bytes w)).
Proof.
  unfold decode, mbind, M_bind, bind, lift, get_world.
  cbn [fst snd]. unfold downloaded at 1, write_file at 1.
  cbn [local_files set_local_files]. rewrite lookup_insert_eq. reflexivity.
Qed.

(** The general decoder succeeds: the image is returned and the
    temporary file closed. *)
Lemma image_primary_ok ext self w f bytes im :
  _overlay_file self = Some f ->
  downloadFile (client self) (file_id f) = Ok bytes ->
  Image_open ext bytes = Ok im ->
  image ext (self, w) = (Ok im, (self, released ext f bytes w)).
Proof.
  intros Hf Hd Hopen. unfold image.
  unfold mbind at 1, M_bind, bind at 1.
  rewrite (image_file_downloads ext self w f bytes Hf Hd).
  unfold mbind at 1, M_bind, bind at 1, try_except at 1.
  unfold tempfile_name at 1, mbind at 1, M_bind, bind at 1, ret at 1.
  rewrite decode_downloaded, Hopen. reflexivity.
Qed.

(** The general decoder fails with an I/O error and the tiled decoder
    succeeds: same outcome. *)
Lemma image_fallback_ok ext self w f bytes e1 im :
  _overlay_file self = Some f ->
  downloadFile (client self) (file_id f) = Ok bytes ->
  Image_open ext bytes = Raise e1 -> is_IOError e1 = true ->
  pytiff_open ext bytes = Ok im ->
  image ext (self, w) = (Ok im, (self, released ext f bytes w)).
Proof.
  intros Hf Hd Hopen Hio Htiff. unfold image.
  unfold mbind at 1, M_bind, bind at 1.
  rewrite (image_file_downloads ext self w f bytes Hf Hd).
  unfold mbind at 1, M_bind, bind at 1, try_except at 1.
  unfold tempfile_name at 1, mbind at 1, M_bind, bind at 1, ret at 1.
  rewrite decode_downloaded, Hopen, Hio.
  unfold try_except, tempfile_name, mbind, M_bind, bind, ret.
  rewrite decode_downloaded, Htiff. reflexivity.
Qed.

(** Both decoders fail: the exception of the tiled decoder comes out and
    the world is the one right after the download, the temporary file
    still in it. *)
Lemma image_both_fail ext self w f bytes e1 e2 :
  _overlay_file self = Some f ->
  downloadFile (client self) (file_id f) = Ok bytes ->
  Image_open ext bytes = Raise e1 -> is_IOError e1 = true ->
  pytiff_open ext bytes = Raise e2 ->
  image ext (self, w) = (Raise e2, (self, downloaded ext f bytes w)).
Proof.
  intros Hf Hd Hopen Hio Htiff. unfold image.
  unfold mbind at 1, M_bind, bind at 1.
  rewrite (image_file_downloads ext self w f bytes Hf Hd).
  unfold mbind at 1, M_bind, bind at 1, try_except at 1.
  unfold tempfile_name at 1, mbind at 1, M_bind, bind at 1, ret at 1.
  rewrite decode_downloaded, Hopen, Hio.
  unfold try_except, tempfile_name, mbind, M_bind, bind, ret.
  rewrite decode_downloaded, Htiff.
  destruct (is_IOError e2); reflexivity.
Qed.

(** An exception of the general decoder that is no I/O error goes
    straight out, the temporary file still in the world. *)
Lemma image_unexpected ext self w f bytes e1 :
  _overlay_file self = Some f ->
  downloadFile (client self) (file_id f) = Ok bytes ->
  Image_open ext bytes = Raise e1 -> is_IOError e1 = false ->
  image ext (self, w) = (Raise e1, (self, downloaded ext f bytes w)).
Proof.
  intros Hf Hd Hopen Hio. unfold image.
  unfold mbind at 1, M_bind, bind at 1.
  rewrite (image_file_downloads ext self w f bytes Hf Hd).
  unfold mbind at 1, M_bind, bind at 1, try_except at 1.
  unfold tempfile_name at 1, mbind at 1, M_bind, bind at 1, ret at 1.
  rewrite decode_downloaded, Hopen, Hio. reflexivity.
Qed.

(** C2. An overlay file on which the general decoder fails with an I/O
    error and the tiled decoder fails too: the exception that leaves
    [image] is the tiled decoder's, not the general decoder's. *)
Theorem both_decoders_fail_raises_fallback_error :
  let self := Demo.annotator (Demo.registry_serving "garbage")
                (Some Demo.cmap) None in
  let out := image Demo.ext (self, Demo.world None) in
  Image_open Demo.ext "garbage" = Raise (IOError "cannot identify image file")
  /\ pytiff_open Demo.ext "garbage" = Raise (IOError "not a TIFF file")
  /\ fst out = Raise (IOError "not a TIFF file")
  /\ fst out <> Raise (IOError "cannot identify image file").
Proof.
  cbv zeta.
  rewrite (image_both_fail Demo.ext
             (Demo.annotator (Demo.registry_serving "garbage")
                (Some Demo.cmap) None)
             (Demo.world None) Demo.png "garbage"
             (IOError "cannot identify image file") (IOError "not a TIFF file")
             eq_refl eq_refl eq_refl eq_refl eq_refl).
  repeat split. cbn [fst]. discriminate.
Qed.

(** C6. On the same input, when [image] lets the exception out the
    temporary file it downloaded to is still there and no close of it
    has happened; when the general decoder succeeds the file is closed
    and gone. *)
Theorem temporary_file_left_on_failure :
  let failing := Demo.annotator (Demo.registry_serving "garbage")
                   (Some Demo.cmap) None in
  let working := Demo.annotator Demo.registry (Some Demo.cmap) None in
  let bad := image Demo.ext (failing, Demo.world None) in
  let good := image Demo.ext (working, Demo.world None) in
  (fst bad = Raise (IOError "not a TIFF file")
   /\ local_files (snd (snd bad)) !! "/tmp/tmp0.png" = Some "garbage"
   /\ trace (snd (snd bad))
      = [EvTempFile "/tmp/tmp0.png"; EvDownloadFile "f1" "/tmp/tmp0.png"])
  /\ (fst good = Ok Demo.blank
      /\ local_files (snd (snd good)) !! "/tmp/tmp0.png" = None
      /\ trace (snd (snd good))
         = [EvTempFile "/tmp/tmp0.png"; EvDownloadFile "f1" "/tmp/tmp0.png";
            EvClose "/tmp/tmp0.png"]).
Proof.
  cbv zeta. split.
  - rewrite (image_both_fail Demo.ext
               (Demo.annotator (Demo.registry_serving "garbage")
                  (Some Demo.cmap) None)
               (Demo.world None) Demo.png "garbage"
               (IOError "cannot identify image file") (IOError "not a TIFF file")
               eq_refl eq_refl eq_refl eq_refl eq_refl).
    repeat split.
  - rewrite (image_primary_ok Demo.ext
               (Demo.annotator Demo.registry (Some Demo.cmap) None)
               (Demo.world None) Demo.png "PNG" Demo.blank
               eq_refl eq_refl eq_refl).
    repeat split.
Qed.

(** ** Instances of the conditional properties *)

Lemma resolve_base_item_witness :
  let run overlays :=
    set_girder_id (Some "item1")
      (Demo.annotator (Demo.registry_overlays overlays) None None,
       Demo.world None) in
  fst (run []) = Raise (ValueError "no overlay for item item1")
  /\ fst (run [Demo.the_overlay; Demo.the_overlay])
     = Raise (ValueError "multiple overlays, specifiy overlay")
  /\ item_id (fst (snd (run [Demo.the_overlay]))) = Some "item1"
  /\ overlay_item_id (fst (snd (run [Demo.the_overlay]))) = Some "overlay1".
Proof.
  cbv zeta. split; [| split].
  - destruct (resolve_base_item
                (Demo.annotator (Demo.registry_overlays []) None None)
                (Demo.world None) "item1" eq_refl) as (H0 & _ & _).
    exact (proj1 (H0 eq_refl)).
  - destruct (resolve_base_item
                (Demo.annotator
                   (Demo.registry_overlays [Demo.the_overlay; Demo.the_overlay])
                   None None)
                (Demo.world None) "item1" eq_refl) as (_ & H2 & _).
    exact (proj1 (H2 _ _ _ eq_refl)).
  - destruct (resolve_base_item
                (Demo.annotator (Demo.registry_overlays [Demo.the_overlay])
                   None None)
                (Demo.world None) "item1" eq_refl) as (_ & _ & H1).
    exact (H1 _ eq_refl).
Defined.

Lemma annotations_fallback_witness :
  let run e :=
    _update_annotations
      (Demo.annotator (Demo.registry_failing e) None None,
       Demo.world (Some (Demo.registry_failing e))) in
  (fst (run (HttpError 400)) = Ok tt
   /\ _annotations (fst (snd (run (HttpError 400))))
      = Some [Demo.tumor "a1"; Demo.tumor "a2"])
  /\ fst (run (HttpError 500)) = Raise (HttpError 500).
Proof.
  cbv zeta. split.
  - destruct (annotations_fallback
                (Demo.annotator (Demo.registry_failing (HttpError 400)) None None)
                (Demo.world (Some (Demo.registry_failing (HttpError 400))))
                "item1" (Demo.registry_failing (HttpError 400))
                eq_refl eq_refl) as [H400 _].
    destruct (H400 [Demo.tumor "a1"; Demo.tumor "a2"]
                   [Demo.tumor "a1"; Demo.tumor "a2"] eq_refl eq_refl)
      as (Hr & Ha & _).
    + repeat constructor.
    + split; [exact Hr | exact Ha].
  - destruct (annotations_fallback
                (Demo.annotator (Demo.registry_failing (HttpError 500)) None None)
                (Demo.world (Some (Demo.registry_failing (HttpError 500))))
                "item1" (Demo.registry_failing (HttpError 500))
                eq_refl eq_refl) as [_ Hother].
    refine (proj1 (Hother (HttpError 500) eq_refl _)). discriminate.
Defined.

Lemma overlay_file_empty_candidates_witness :
  let run files it :=
    _update_overlay_file
      (Demo.annotator (Demo.registry_files files it) None None,
       Demo.world None) in
  fst (run [Demo.notes] Demo.plain_item) = Raise IndexError
  /\ fst (run [Demo.png; Demo.png] {| item_largeImage := Some (Some "f1") |})
     = Raise IndexError.
Proof.
  cbv zeta. split.
  - destruct (overlay_file_empty_candidates
                (Demo.annotator
                   (Demo.registry_files [Demo.notes] Demo.plain_item) None None)
                (Demo.world None) "overlay1" eq_refl) as [Hnone _].
    refine (proj1 (Hnone [Demo.notes] eq_refl _ eq_refl)). discriminate.
  - destruct (overlay_file_empty_candidates
                (Demo.annotator
                   (Demo.registry_files [Demo.png; Demo.png]
                      {| item_largeImage := Some (Some "f1") |}) None None)
                (Demo.world None) "overlay1" eq_refl) as [_ Hall].
    refine (proj1 (Hall [Demo.png; Demo.png]
                        {| item_largeImage := Some (Some "f1") |} "f1"
                        eq_refl _ eq_refl eq_refl _)).
    + cbn. lia.
    + repeat constructor.
Defined.

Lemma grouping_needs_colors_witness :
  let unset := Demo.annotator Demo.registry None (Some [Demo.tumor "a1"]) in
  let partial := Demo.annotator Demo.registry (Some {[ "tumor" := Demo.red ]})
                   (Some [Demo.tumor "a1"; Demo.stroma "b1"]) in
  raised (annotations unset) = Some (ValueError "no color mapping set")
  /\ yielded (annotations unset) = []
  /\ (exists n, raised (annotations partial)
                = Some (ValueError ("no color mapping for annotation "
                                    ++ dquote ++ n ++ dquote)))
  /\ fst (set_colormap Demo.ext (Some "colors.json")
            (partial, Demo.world None)) = Ok tt.
Proof.
  cbv zeta.
  destruct (grouping_needs_colors Demo.ext) as (Hunset & Hmissing & Hload).
  destruct (Hunset (Demo.annotator Demo.registry None (Some [Demo.tumor "a1"]))
                   [Demo.tumor "a1"] eq_refl eq_refl) as [E _].
  rewrite E. split; [reflexivity | split; [reflexivity | split]].
  - destruct (Hmissing
                (Demo.annotator Demo.registry (Some {[ "tumor" := Demo.red ]})
                   (Some [Demo.tumor "a1"; Demo.stroma "b1"]))
                [Demo.tumor "a1"; Demo.stroma "b1"] {[ "tumor" := Demo.red ]}
                (Demo.stroma "b1") "stroma" eq_refl eq_refl)
      as (n & _ & _ & _ & _ & Hr & _).
    + right; left; reflexivity.
    + reflexivity.
    + vm_compute. reflexivity.
    + exists n. exact Hr.
  - rewrite (Hload _ (Demo.world None) "colors.json" Demo.cmap).
    + reflexivity.
    + discriminate.
    + reflexivity.
Defined.

(** ** The pipeline on the fixtures *)

(** Run as the script runs it (the module-level [client] is the
    instance's client): the assignment succeeds, resolves the pair,
    selects the file and fetches the annotations; the getter still reads
    [None]. *)
Example assignment_on_fixture :
  let out := set_girder_id (Some "item1")
               (init Demo.registry, Demo.world (Some Demo.registry)) in
  fst out = Ok tt
  /\ girder_id (fst (snd out)) = None
  /\ _gider_id (fst (snd out)) = Some (Some "item1")
  /\ item_id (fst (snd out)) = Some "item1"
  /\ overlay_item_id (fst (snd out)) = Some "overlay1"
  /\ overlay_file (fst (snd out)) = Some Demo.png
  /\ _annotations (fst (snd out)) = Some [Demo.tumor "a1"; Demo.tumor "a2"]
  /\ trace (snd (snd out))
     = [EvGet (GetOverlays "item1"); EvGet (GetItemFiles "overlay1" 2);
        EvGet (GetItemAnnotations "item1")].
Proof. cbv zeta. repeat split. Qed.

(** Used as a library, with no module-level [client], the same
    assignment stops at the annotation fetch. *)
Example assignment_without_module_client :
  fst (set_girder_id (Some "item1") (init Demo.registry, Demo.world None))
  = Raise (NameError "client").
Proof. reflexivity. Qed.

(** [save] on the fixture: both tumor squares are drawn in red on the
    decoded image and the temporary file is gone. *)
Example save_on_fixture :
  let self := Demo.annotator Demo.registry (Some Demo.cmap)
                (Some [Demo.tumor "a1"; Demo.tumor "a2"]) in
  let drawn := _draw_annotations Demo.ext (self, Demo.world None) in
  fst (save Demo.ext "out.png" (self, Demo.world None)) = Ok tt
  /\ (exists im, fst drawn = Ok im
                 /\ im_pixel im 5 5 = Demo.red
                 /\ im_pixel im 6 6 = Demo.background)
  /\ local_files (snd (snd drawn)) = ∅.
Proof.
  cbv zeta. split; [vm_compute; reflexivity |]. split.
  - eexists. split; [vm_compute; reflexivity |]. split; reflexivity.
  - vm_compute. reflexivity.
Qed.

(** * Further properties of the class *)

(** ** How computations move the world *)

Section WorldSteps.

Context (R : World -> World -> Prop) `{!PreOrder R}.

Lemma steps_ret {A} (a : A) : world_steps R (mret a).
Proof. intros st; simpl; reflexivity. Qed.

Lemma steps_raise {A} (e : exn) : world_steps R (@raise A e).
Proof. intros st; simpl; reflexivity. Qed.

Lemma steps_lift {A} (r : result A) : world_steps R (lift r).
Proof. intros st; simpl; reflexivity. Qed.

Lemma steps_get_self : world_steps R get_self.
Proof. intros st; simpl; reflexivity. Qed.

Lemma steps_get_world : world_steps R get_world.
Proof. intros st; simpl; reflexivity. Qed.

Lemma steps_modify_self f : world_steps R (modify_self f).
Proof. intros st; simpl; reflexivity. Qed.

Lemma steps_modify_world f :
  (forall w, R w (f w)) -> world_steps R (modify_world f).
Proof. intros Hf st; simpl; apply Hf. Qed.

Lemma steps_bind {A C} (m : M A) (k : A -> M C) :
  world_steps R m -> (forall a, world_steps R (k a)) ->
  world_steps R (m ≫= k).
Proof.
  intros Hm Hk st. unfold mbind, M_bind, bind.
  specialize (Hm st). destruct (m st) as [[a | e] st'] eqn:E; simpl in *.
  - etransitivity; [exact Hm | apply Hk].
  - exact Hm.
Qed.

Lemma steps_try_except {A} (body : M A) handles handler :
  world_steps R body -> (forall e, world_steps R (handler e)) ->
  world_steps R (try_except body handles handler).
Proof.
  intros Hb Hh st. unfold try_except.
  specialize (Hb st). destruct (body st) as [[a | e] st'] eqn:E; simpl in *.
  - exact Hb.
  - destruct (handles e); simpl; [| exact Hb].
    etransitivity; [exact Hb | apply Hh].
Qed.

Lemma steps_client_get c r :
  (forall w, R w (log (EvGet r) w)) -> world_steps R (client_get c r).
Proof.
  intros Hlog. unfold client_get.
  apply steps_bind; [apply steps_modify_world, Hlog | intros _; apply steps_lift].
Qed.

Lemma steps_client_getItem c i :
  (forall w, R w (log (EvGetItem i) w)) -> world_steps R (client_getItem c i).
Proof.
  intros Hlog. unfold client_getItem.
  apply steps_bind; [apply steps_modify_world, Hlog | intros _; apply steps_lift].
Qed.

Lemma steps_global_client : world_steps R global_client.
Proof.
  unfold global_client. apply steps_bind; [apply steps_get_world | intros w].
  destruct (module_client w); [apply (steps_ret _) | apply steps_raise].
Qed.

Context (Hquery : forall ev w, is_query ev = true -> R w (log ev w)).

Lemma steps_fetch_each c l : world_steps R (fetch_each c l).
Proof.
  induction l as [| a l IH]; cbn [fetch_each].
  - apply (steps_ret _).
  - apply steps_bind.
    + exact (steps_client_get c (GetAnnotation (ann_id a))
               (fun w => Hquery (EvGet _) w eq_refl)).
    + intros full. apply steps_bind; [apply steps_modify_self | intros _; exact IH].
Qed.

Lemma steps__update_annotations : world_steps R _update_annotations.
Proof.
  unfold _update_annotations.
  apply steps_bind; [apply steps_get_self | intros self].
  destruct (_item_id self) as [iid |]; [| apply steps_modify_self].
  apply steps_try_except.
  - apply steps_bind; [apply steps_global_client | intros c].
    apply steps_bind; [| intros l; apply steps_modify_self].
    exact (steps_client_get c (GetItemAnnotations iid)
             (fun w => Hquery (EvGet _) w eq_refl)).
  - intros e. destruct (bool_decide _); [| apply steps_raise].
    apply steps_bind; [apply steps_global_client | intros c].
    apply steps_bind.
    + exact (steps_client_get c (GetAnnotations iid 0)
               (fun w => Hquery (EvGet _) w eq_refl)).
    + intros l. apply steps_bind; [apply steps_modify_self |].
      intros _. apply steps_fetch_each.
Qed.

Lemma steps__update_overlay_file : world_steps R _update_overlay_file.
Proof.
  unfold _update_overlay_file.
  apply steps_bind; [apply steps_get_self | intros self].
  destruct (_overlay_item_id self) as [oid |]; [| apply steps_modify_self].
  apply steps_bind.
  - exact (steps_client_get (client self) (GetItemFiles oid 2)
             (fun w => Hquery (EvGet _) w eq_refl)).
  - intros files. destruct files as [| f0 files]; [apply steps_raise |].
    apply steps_bind.
    + destruct (_ <? _)%nat; [| apply (steps_ret _)].
      apply steps_bind; [| intros it; apply (steps_ret _)].
      apply steps_client_getItem. intros w. apply Hquery. reflexivity.
    + intros l. destruct (_ <? _)%nat; [apply steps_raise |].
      apply steps_bind; [apply steps_lift | intros f; apply steps_modify_self].
Qed.

Lemma steps_set_girder_id g : world_steps R (set_girder_id g).
Proof.
  unfold set_girder_id.
  do 3 (apply steps_bind; [apply steps_modify_self | intros _]).
  apply steps_bind.
  - destruct g as [gid |]; [| apply (steps_ret _)].
    apply steps_bind; [apply steps_get_self | intros self].
    apply steps_bind.
    + destruct (_is_overlay_id self).
      * apply steps_bind; [| intros o; apply (steps_ret _)].
        exact (steps_client_get (client self) (GetOverlay gid)
                 (fun w => Hquery (EvGet _) w eq_refl)).
      * apply steps_bind.
        -- exact (steps_client_get (client self) (GetOverlays gid)
                    (fun w => Hquery (EvGet _) w eq_refl)).
        -- intros l. destruct l as [| o1 l]; [apply steps_raise |].
           destruct (_ <? _)%nat; [apply steps_raise |].
           apply steps_bind; [apply steps_lift | intros o; apply (steps_ret _)].
    + intros [iid o].
      apply steps_bind; [| intros _]; apply steps_modify_self.
  - intros _. apply steps_bind; [apply steps__update_overlay_file |].
    intros _. apply steps__update_annotations.
Qed.

End WorldSteps.

Lemma grew_by_refl P w : grew_by P w w.
Proof. exists []. split; [symmetry; apply app_nil_r | reflexivity]. Qed.

Lemma grew_by_trans P w1 w2 w3 :
  grew_by P w1 w2 -> grew_by P w2 w3 -> grew_by P w1 w3.
Proof.
  intros (e1 & E1 & F1) (e2 & E2 & F2). exists (e1 ++ e2)%list. split.
  - rewrite E2, E1, <- app_assoc. reflexivity.
  - rewrite forallb_app, F1, F2. reflexivity.
Qed.

Lemma grew_by_log (P : event -> bool) ev w :
  P ev = true -> grew_by P w (log ev w).
Proof. intros HP. exists [ev]. split; [reflexivity | cbn; rewrite HP; reflexivity]. Qed.

Lemma grew_by_weaken (P Q : event -> bool) w w' :
  (forall ev, P ev = true -> Q ev = true) -> grew_by P w w' -> grew_by Q w w'.
Proof.
  intros HPQ (evs & E & F). exists evs. split; [exact E |].
  apply forallb_forall. intros ev Hin.
  apply HPQ. exact (proj1 (forallb_forall P evs) F ev Hin).
Qed.

#[local] Instance only_queried_preorder : PreOrder only_queried.
Proof.
  split.
  - intros w. repeat split. apply grew_by_refl.
  - intros w1 w2 w3 (F1 & T1 & C1 & G1) (F2 & T2 & C2 & G2).
    repeat split; try congruence. eapply grew_by_trans; eassumption.
Qed.

#[local] Instance only_file_traffic_preorder : PreOrder only_file_traffic.
Proof.
  split.
  - intros w. split; [reflexivity | apply grew_by_refl].
  - intros w1 w2 w3 (C1 & G1) (C2 & G2).
    split; [congruence | eapply grew_by_trans; eassumption].
Qed.

#[local] Instance nothing_saved_preorder : PreOrder nothing_saved.
Proof.
  split.
  - intros w. apply grew_by_refl.
  - intros w1 w2 w3. apply grew_by_trans.
Qed.

#[local] Instance world_eq_preorder : PreOrder (@eq World).
Proof. split; [intros w; reflexivity | intros w1 w2 w3; congruence]. Qed.

Lemma bind_Ok_inv {A B} (m : M A) (k : A -> M B) st b st' :
  (m ≫= k) st = (Ok b, st') ->
  exists a st1, m st = (Ok a, st1) /\ k a st1 = (Ok b, st').
Proof.
  unfold mbind, M_bind, bind. destruct (m st) as [[a | e] st1] eqn:E.
  - intros H. exists a, st1. split; [reflexivity | exact H].
  - discriminate.
Qed.

Lemma bind_Raise {A B} (m : M A) (k : A -> M B) st e st1 :
  m st = (Raise e, st1) -> (m ≫= k) st = (Raise e, st1).
Proof. intros H. unfold mbind, M_bind, bind. rewrite H. reflexivity. Qed.

Lemma bind_Ok {A B} (m : M A) (k : A -> M B) st a st1 :
  m st = (Ok a, st1) -> (m ≫= k) st = k a st1.
Proof. intros H. unfold mbind, M_bind, bind. rewrite H. reflexivity. Qed.

(** ** Resolving the identifier, continued *)

(** The setter up to the refresh of file and annotations, in overlay mode. *)
Lemma set_girder_id_resolve_overlay self w gid o :
  _is_overlay_id self = true ->
  get (client self) (GetOverlay gid) = Ok o ->
  exists st1,
    _item_id (fst st1) = Some (overlay_itemId o) /\
    _overlay_item_id (fst st1) = Some (overlay_overlayItemId o) /\
    trace (snd st1) = (trace w ++ [EvGet (GetOverlay gid)])%list /\
    set_girder_id (Some gid) (self, w)
    = (_update_overlay_file;; _update_annotations) st1.
Proof.
  intros Hmode Hget. destruct self as [c cm g g' ov it oit ofile an].
  simpl in Hmode, Hget. subst ov.
  eexists. split; [| split; [| split]]; cycle 3.
  - unfold set_girder_id. unfold mbind at 1 2 3 4, M_bind, bind at 1 2 3 4.
    simpl. unfold client_get, mbind, M_bind, bind, lift. simpl.
    rewrite Hget. simpl. reflexivity.
  - reflexivity.
  - reflexivity.
  - reflexivity.
Qed.

(** X1. In overlay mode the identifier is looked up as an overlay: on
    success its parent item id becomes the base item id and its overlay
    item id is stored, with no uniqueness check; an exception of the
    lookup leaves the setter at once, after that single call, with both
    ids unset. *)
Theorem resolve_overlay_mode (self : LabelAnnotator) (w : World) (gid : string) :
  _is_overlay_id self = true ->
  (forall o,
     get (client self) (GetOverlay gid) = Ok o ->
     let out := set_girder_id (Some gid) (self, w) in
     item_id (fst (snd out)) = Some (overlay_itemId o)
     /\ overlay_item_id (fst (snd out)) = Some (overlay_overlayItemId o))
  /\ (forall e,
        get (client self) (GetOverlay gid) = Raise e ->
        let out := set_girder_id (Some gid) (self, w) in
        fst out = Raise e
        /\ item_id (fst (snd out)) = None
        /\ overlay_item_id (fst (snd out)) = None
        /\ trace (snd (snd out)) = (trace w ++ [EvGet (GetOverlay gid)])%list).
Proof.
  intros Hmode. split.
  - intros o Hget out.
    destruct (set_girder_id_resolve_overlay self w gid o Hmode Hget)
      as (st1 & Hitem & Hov & _ & E).
    subst out. rewrite E. unfold item_id, overlay_item_id.
    rewrite !(updates_preserve _) by (intros v []; reflexivity).
    split; assumption.
  - intros e Hget out. subst out.
    destruct self as [c cm g g' ov it oit ofile an].
    simpl in Hmode, Hget. subst ov.
    unfold set_girder_id, client_get, mbind, M_bind, bind, lift. simpl.
    rewrite Hget. repeat split.
Qed.

(** X2. When resolving the identifier fails (the lookup raises, or in
    base-item mode finds no overlay or several), the two ids are unset
    but the overlay file and the annotations of the previous identifier
    stay in the instance: the refresh is never reached. *)
Theorem failed_resolution_keeps_file_and_annotations
    (self : LabelAnnotator) (w : World) (gid : string) :
  resolution_fails self gid ->
  let out := set_girder_id (Some gid) (self, w) in
  (exists e, fst out = Raise e)
  /\ item_id (fst (snd out)) = None
  /\ overlay_item_id (fst (snd out)) = None
  /\ overlay_file (fst (snd out)) = overlay_file self
  /\ _annotations (fst (snd out)) = _annotations self.
Proof.
  intros Hfail out. subst out. unfold resolution_fails in Hfail.
  destruct self as [c cm g g' ov it oit ofile an]. cbn [_is_overlay_id client] in Hfail.
  destruct ov.
  - destruct Hfail as [e Hget].
    unfold set_girder_id, client_get, mbind, M_bind, bind, lift. simpl.
    simpl in Hget. rewrite Hget. repeat split. exists e. reflexivity.
  - destruct Hfail as [[e Hget] | [Hget | (o1 & o2 & rest & Hget)]];
      unfold set_girder_id, client_get, mbind, M_bind, bind, lift; simpl;
      simpl in Hget; rewrite Hget; repeat split; eexists; reflexivity.
Qed.

Lemma resolve_overlay_mode_witness :
  let self := set_is_overlay_id_attr true
                (Demo.annotator Demo.registry None None) in
  let out := set_girder_id (Some "overlay1") (self, Demo.world None) in
  item_id (fst (snd out)) = Some "item1"
  /\ overlay_item_id (fst (snd out)) = Some "overlay1".
Proof.
  cbv zeta.
  destruct (resolve_overlay_mode
              (set_is_overlay_id_attr true (Demo.annotator Demo.registry None None))
              (Demo.world None) "overlay1" eq_refl) as [Hok _].
  exact (Hok Demo.the_overlay eq_refl).
Defined.

Lemma failed_resolution_keeps_file_and_annotations_witness :
  let self := Demo.annotator (Demo.registry_overlays []) None
                (Some [Demo.tumor "a1"]) in
  let out := set_girder_id (Some "item2") (self, Demo.world None) in
  item_id (fst (snd out)) = None
  /\ overlay_file (fst (snd out)) = Some Demo.png
  /\ _annotations (fst (snd out)) = Some [Demo.tumor "a1"].
Proof.
  cbv zeta.
  destruct (failed_resolution_keeps_file_and_annotations
              (Demo.annotator (Demo.registry_overlays []) None
                 (Some [Demo.tumor "a1"]))
              (Demo.world None) "item2")
    as (_ & Hitem & _ & Hfile & Hann).
  - right. left. reflexivity.
  - repeat split; assumption.
Defined.

(** ** Locating the overlay file, continued *)

Lemma pick_file_eval self oid cands w :
  (if (1 <? length cands)%nat
   then raise (ValueError ("multiple files for overlay " ++ oid))
   else f ← lift (index cands 0);
        modify_self (set_overlay_file_attr (Some f))) (self, w)
  = pick_file self oid cands w.
Proof.
  unfold pick_file. destruct cands as [| a [| b l]]; reflexivity.
Qed.

(** The lookup on a non-empty listing, step by step. *)
Lemma _update_overlay_file_listed self w oid (files : list file) :
  _overlay_item_id self = Some oid ->
  get (client self) (GetItemFiles oid 2) = Ok files ->
  files <> [] ->
  let imgs := List.filter is_image files in
  let w1 := log (EvGet (GetItemFiles oid 2)) w in
  let w2 := log (EvGetItem oid) w1 in
  _update_overlay_file (self, w)
  = if (1 <? length imgs)%nat
    then match getItem (client self) oid with
         | Raise e => (Raise e, (self, w2))
         | Ok it =>
             pick_file self oid
               (List.filter (not_large_image (large_image_id it)) imgs) w2
         end
    else pick_file self oid imgs w1.
Proof.
  intros Hoid Hget Hne. cbv zeta.
  destruct self as [c cm g g' ov it0 oit ofile an].
  simpl in Hoid. subst oit.
  destruct files as [| f0 files]; [congruence |].
  unfold _update_overlay_file, client_get, client_getItem,
    mbind, M_bind, bind, lift.
  cbn -[List.filter String.prefix Nat.ltb].
  cbn -[List.filter String.prefix] in Hget.
  rewrite Hget. fold is_image.
  destruct (1 <? length (List.filter is_image (f0 :: files)))%nat eqn:Hlen.
  - cbn -[List.filter String.prefix Nat.ltb].
    destruct (getItem c oid) as [it | e]; [| reflexivity].
    cbn -[List.filter String.prefix Nat.ltb].
    exact (pick_file_eval _ oid
             (List.filter (not_large_image (large_image_id it))
                (List.filter is_image (f0 :: files))) _).
  - cbn -[List.filter String.prefix Nat.ltb]. 
    exact (pick_file_eval _ oid (List.filter is_image (f0 :: files)) _).
Qed.

(** X3. An overlay item without files makes the lookup fail with the
    not-found error naming the item; an exception of the listing comes
    out as it is. The stored overlay file is not touched. *)
Theorem overlay_without_files (self : LabelAnnotator) (w : World) (oid : string) :
  _overlay_item_id self = Some oid ->
  (get (client self) (GetItemFiles oid 2) = Ok [] ->
   let out := _update_overlay_file (self, w) in
   fst out = Raise (ValueError ("no files for overlay " ++ oid))
   /\ (forall e, fst out = Raise e -> kind_of e = Some NotFoundError)
   /\ overlay_file (fst (snd out)) = overlay_file self)
  /\ (forall e,
        get (client self) (GetItemFiles oid 2) = Raise e ->
        let out := _update_overlay_file (self, w) in
        fst out = Raise e
        /\ overlay_file (fst (snd out)) = overlay_file self).
Proof.
  intros Hoid. destruct self as [c cm g g' ov it0 oit ofile an].
  simpl in Hoid. subst oit. split.
  - intros Hget out. subst out.
    unfold _update_overlay_file, client_get, mbind, M_bind, bind, lift.
    cbn -[String.prefix]. cbn in Hget. rewrite Hget. cbn [fst snd].
    repeat split. intros e [= <-]. unfold kind_of.
    replace (String.prefix "no overlay for item " ("no files for overlay " ++ oid))
      with false by reflexivity.
    rewrite prefix_app. reflexivity.
  - intros e Hget out. subst out.
    unfold _update_overlay_file, client_get, mbind, M_bind, bind, lift.
    cbn. cbn in Hget. rewrite Hget. repeat split.
Qed.

(** X4. Whenever the lookup succeeds on an overlay item, the file it
    stores is one of the listed files and its media type starts with
    "image". *)
Theorem located_file_is_listed_image (self : LabelAnnotator) (w : World)
    (oid : string) (files : list file) :
  _overlay_item_id self = Some oid ->
  get (client self) (GetItemFiles oid 2) = Ok files ->
  fst (_update_overlay_file (self, w)) = Ok tt ->
  exists f,
    overlay_file (fst (snd (_update_overlay_file (self, w)))) = Some f
    /\ In f files
    /\ String.prefix "image" (file_mimeType f) = true.
Proof.
  intros Hoid Hget.
  destruct files as [| f0 files].
  - destruct self as [c cm g g' ov it0 oit ofile an].
    simpl in Hoid. subst oit.
    unfold _update_overlay_file, client_get, mbind, M_bind, bind, lift.
    cbn. cbn in Hget. rewrite Hget. discriminate.
  - rewrite (_update_overlay_file_listed self w oid (f0 :: files) Hoid Hget)
      by discriminate.
    set (imgs := List.filter is_image (f0 :: files)).
    assert (Hpick : forall cands w',
      (forall f, In f cands -> In f imgs) ->
      fst (pick_file self oid cands w') = Ok tt ->
      exists f,
        overlay_file (fst (snd (pick_file self oid cands w'))) = Some f
        /\ In f (f0 :: files)
        /\ String.prefix "image" (file_mimeType f) = true).
    { intros cands w' Hsub. unfold pick_file.
      destruct (1 <? length cands)%nat; [discriminate |].
      destruct cands as [| f cands]; [discriminate |]. intros _.
      exists f. split; [destruct self; reflexivity |].
      assert (Hin : In f imgs) by (apply Hsub; left; reflexivity).
      apply filter_In in Hin. exact Hin. }
    destruct (1 <? length imgs)%nat.
    + destruct (getItem (client self) oid) as [it | e]; [| discriminate].
      apply Hpick. intros f Hin. apply filter_In in Hin. tauto.
    + apply Hpick. tauto.
Qed.

Lemma single_file_located (self : LabelAnnotator) (w : World)
    (oid : string) (files : list file) (f : file) :
  _overlay_item_id self = Some oid ->
  get (client self) (GetItemFiles oid 2) = Ok files ->
  List.filter is_image files = [f] ->
  _update_overlay_file (self, w)
  = (Ok tt, (set_overlay_file_attr (Some f) self,
             log (EvGet (GetItemFiles oid 2)) w)).
Proof.
  intros Hoid Hget Hone.
  rewrite (_update_overlay_file_listed self w oid files Hoid Hget).
  - rewrite Hone. reflexivity.
  - intros ->. discriminate.
Qed.

(** X5. When exactly one listed file is an image, it is selected and the
    item's metadata is not asked for: the listing is the only call. *)
Theorem single_image_file_selected (self : LabelAnnotator) (w : World)
    (oid : string) (files : list file) (f : file) :
  _overlay_item_id self = Some oid ->
  get (client self) (GetItemFiles oid 2) = Ok files ->
  List.filter is_image files = [f] ->
  _update_overlay_file (self, w)
  = (Ok tt, (set_overlay_file_attr (Some f) self,
             log (EvGet (GetItemFiles oid 2)) w)).
Proof. exact (single_file_located self w oid files f). Qed.

Lemma filter_not_large_image_None (l : list file) :
  List.filter (not_large_image None) l = l.
Proof.
  induction l as [| o l IH]; [reflexivity |].
  cbn. rewrite IH. reflexivity.
Qed.

(** X6. With several image files, the item's metadata is fetched and the
    file named by its large-image file id is set aside: if exactly one
    file is left it is selected; if several are left (always so when the
    item names no large-image file) the lookup fails with the ambiguity
    error. *)
Theorem large_image_disambiguation (self : LabelAnnotator) (w : World)
    (oid : string) (files : list file) (it : item) :
  _overlay_item_id self = Some oid ->
  get (client self) (GetItemFiles oid 2) = Ok files ->
  (1 < length (List.filter is_image files))%nat ->
  getItem (client self) oid = Ok it ->
  let rest := List.filter (not_large_image (large_image_id it))
                          (List.filter is_image files) in
  let out := _update_overlay_file (self, w) in
  (forall f, rest = [f] ->
     fst out = Ok tt /\ overlay_file (fst (snd out)) = Some f)
  /\ ((1 < length rest)%nat ->
      fst out = Raise (ValueError ("multiple files for overlay " ++ oid))
      /\ kind_of (ValueError ("multiple files for overlay " ++ oid))
         = Some AmbiguousError
      /\ overlay_file (fst (snd out)) = overlay_file self)
  /\ (large_image_id it = None -> (1 < length rest)%nat)
  /\ trace (snd (snd out))
     = (trace w ++ [EvGet (GetItemFiles oid 2); EvGetItem oid])%list.
Proof.
  intros Hoid Hget Hlen Hitem. cbv zeta.
  assert (Hne : files <> []) by (intros ->; simpl in Hlen; lia).
  rewrite (_update_overlay_file_listed self w oid files Hoid Hget Hne).
  apply Nat.ltb_lt in Hlen. rewrite Hlen, Hitem.
  set (rest := List.filter (not_large_image (large_image_id it))
                           (List.filter is_image files)).
  split; [| split; [| split]].
  - intros f Hrest. rewrite Hrest. cbn. destruct self; split; reflexivity.
  - intros Hmany. apply Nat.ltb_lt in Hmany. unfold pick_file.
    rewrite Hmany. cbn [fst snd].
    repeat split. unfold kind_of.
    replace (String.prefix "no overlay for item " ("multiple files for overlay " ++ oid))
      with false by reflexivity.
    replace (String.prefix "no files for overlay " ("multiple files for overlay " ++ oid))
      with false by reflexivity.
    replace (String.prefix "multiple overlays" ("multiple files for overlay " ++ oid))
      with false by reflexivity.
    rewrite prefix_app. reflexivity.
  - intros Hnone. subst rest. rewrite Hnone.
    rewrite filter_not_large_image_None. apply Nat.ltb_lt. exact Hlen.
  - unfold pick_file.
    destruct (1 <? length rest)%nat; [cbn; rewrite <- app_assoc; reflexivity |].
    destruct rest; cbn; rewrite <- app_assoc; reflexivity.
Qed.

Lemma overlay_without_files_witness :
  fst (_update_overlay_file
         (Demo.annotator (Demo.registry_files [] Demo.plain_item) None None,
          Demo.world None))
  = Raise (ValueError "no files for overlay overlay1").
Proof.
  destruct (overlay_without_files
              (Demo.annotator (Demo.registry_files [] Demo.plain_item) None None)
              (Demo.world None) "overlay1" eq_refl) as [Hnone _].
  exact (proj1 (Hnone eq_refl)).
Defined.

Lemma located_file_is_listed_image_witness :
  exists f,
    overlay_file
      (fst (snd (_update_overlay_file
                   (Demo.annotator
                      (Demo.registry_files [Demo.notes; Demo.png] Demo.plain_item)
                      None None, Demo.world None)))) = Some f
    /\ In f [Demo.notes; Demo.png]
    /\ String.prefix "image" (file_mimeType f) = true.
Proof.
  exact (located_file_is_listed_image
           (Demo.annotator
              (Demo.registry_files [Demo.notes; Demo.png] Demo.plain_item)
              None None)
           (Demo.world None) "overlay1" [Demo.notes; Demo.png]
           eq_refl eq_refl eq_refl).
Defined.

Lemma single_image_file_selected_witness :
  overlay_file
    (fst (snd (_update_overlay_file
                 (Demo.annotator
                    (Demo.registry_files [Demo.notes; Demo.png] Demo.plain_item)
                    None None, Demo.world None))))
  = Some Demo.png.
Proof.
  rewrite (single_image_file_selected
             (Demo.annotator
                (Demo.registry_files [Demo.notes; Demo.png] Demo.plain_item)
                None None)
             (Demo.world None) "overlay1" [Demo.notes; Demo.png] Demo.png
             eq_refl eq_refl eq_refl).
  reflexivity.
Defined.

Lemma large_image_disambiguation_witness :
  let it := {| item_largeImage := Some (Some "f3") |} in
  overlay_file
    (fst (snd (_update_overlay_file
                 (Demo.annotator
                    (Demo.registry_files [Demo.png; Demo.tiff] it) None None,
                  Demo.world None))))
  = Some Demo.png
  /\ fst (_update_overlay_file
            (Demo.annotator
               (Demo.registry_files [Demo.png; Demo.tiff] Demo.plain_item)
               None None, Demo.world None))
     = Raise (ValueError "multiple files for overlay overlay1").
Proof.
  cbv zeta. split.
  - destruct (large_image_disambiguation
                (Demo.annotator
                   (Demo.registry_files [Demo.png; Demo.tiff]
                      {| item_largeImage := Some (Some "f3") |}) None None)
                (Demo.world None) "overlay1" [Demo.png; Demo.tiff]
                {| item_largeImage := Some (Some "f3") |}
                eq_refl eq_refl ltac:(cbn; lia) eq_refl) as (Hone & _).
    exact (proj2 (Hone Demo.png eq_refl)).
  - destruct (large_image_disambiguation
                (Demo.annotator
                   (Demo.registry_files [Demo.png; Demo.tiff] Demo.plain_item)
                   None None)
                (Demo.world None) "overlay1" [Demo.png; Demo.tiff]
                Demo.plain_item
                eq_refl eq_refl ltac:(cbn; lia) eq_refl) as (_ & Hmany & Hnone & _).
    exact (proj1 (Hmany (Hnone eq_refl))).
Defined.

(** ** Fetching the annotations, continued *)

Lemma set_girder_id_unfold (gid : string) :
  set_girder_id (Some gid)
  = (modify_self (set_gider_id_attr (Some gid));;
     modify_self (set_item_id_attr None);;
     modify_self (set_overlay_item_id_attr None);;
     (self ← get_self;
      '(item_id, overlay) ← resolve_pair self gid;
      modify_self (set_item_id_attr (Some item_id));;
      modify_self (set_overlay_item_id_attr
                     (Some (overlay_overlayItemId overlay))));;
     _update_overlay_file;;
     _update_annotations).
Proof. reflexivity. Qed.

Lemma steps_resolve_pair (R : World -> World -> Prop) `{!PreOrder R}
    (Hquery : forall ev w, is_query ev = true -> R w (log ev w)) self gid :
  world_steps R (resolve_pair self gid).
Proof.
  unfold resolve_pair. destruct (_is_overlay_id self).
  - apply (steps_bind R).
    + exact (steps_client_get R (client self) (GetOverlay gid)
               (fun w => Hquery (EvGet _) w eq_refl)).
    + intros o. apply (steps_ret R).
  - apply (steps_bind R).
    + exact (steps_client_get R (client self) (GetOverlays gid)
               (fun w => Hquery (EvGet _) w eq_refl)).
    + intros l. destruct l as [| o1 l]; [apply (steps_raise R) |].
      destruct (_ <? _)%nat; [apply (steps_raise R) |].
      apply (steps_bind R); [apply (steps_lift R) | intros o; apply (steps_ret R)].
Qed.

Lemma only_queried_log ev w : is_query ev = true -> only_queried w (log ev w).
Proof. intros H. repeat split. apply grew_by_log, H. Qed.

Lemma unbound_client_raises self w iid :
  _item_id self = Some iid ->
  module_client w = None ->
  _update_annotations (self, w) = (Raise (NameError "client"), (self, w)).
Proof.
  intros Hitem Hclient. destruct self as [c cm g g' ov it oit ofile an].
  destruct w as [mc tr fs n]. simpl in Hitem, Hclient. subst it mc.
  reflexivity.
Qed.

(** X7. The annotation fetch looks the client up under the module-level
    name [client]. Where that name is unbound (the class used as a
    library) the fetch of a set base item raises NameError without any
    call, and no assignment of a non-null identifier ever succeeds. *)
Theorem assignment_needs_module_client (self : LabelAnnotator) (w : World) :
  module_client w = None ->
  (forall iid,
     _item_id self = Some iid ->
     _update_annotations (self, w) = (Raise (NameError "client"), (self, w)))
  /\ (forall gid, fst (set_girder_id (Some gid) (self, w)) <> Ok tt).
Proof.
  intros Hclient. split.
  - intros iid Hitem. apply (unbound_client_raises self w iid); assumption.
  - intros gid Hok.
    destruct (set_girder_id (Some gid) (self, w)) as [r st'] eqn:E.
    cbn [fst] in Hok. subst r. rewrite set_girder_id_unfold in E.
    apply bind_Ok_inv in E as (? & s1 & E1 & E).
    apply bind_Ok_inv in E as (? & s2 & E2 & E).
    apply bind_Ok_inv in E as (? & s3 & E3 & E).
    apply bind_Ok_inv in E as (? & st1 & Eres & E).
    apply bind_Ok_inv in E as (? & st2 & Efile & Eann).
    assert (Hw3 : snd s3 = w).
    { unfold modify_self in E1, E2, E3.
      injection E1 as _ <-. injection E2 as _ <-. injection E3 as _ <-.
      reflexivity. }
    apply bind_Ok_inv in Eres as (self3 & s4 & Eself & Eres).
    unfold get_self in Eself. injection Eself as _ <-.
    apply bind_Ok_inv in Eres as ([iid o] & sr & Epair & Eset).
    assert (Hwr : module_client (snd sr) = None).
    { pose proof (steps_resolve_pair only_queried only_queried_log
                    self3 gid s3) as (_ & _ & Hc & _).
      rewrite Epair in Hc. cbn [snd] in Hc. rewrite Hc, Hw3. exact Hclient. }
    assert (Hst1 : _item_id (fst st1) = Some iid
                   /\ module_client (snd st1) = None).
    { unfold mbind, M_bind, bind, modify_self in Eset. cbn in Eset.
      injection Eset as _ <-. cbn [fst snd]. split; [| exact Hwr].
      destruct (fst sr); reflexivity. }
    destruct Hst1 as [Hitem1 Hc1].
    assert (Hitem2 : _item_id (fst st2) = Some iid).
    { pose proof (_update_overlay_file_preserves _item_id
                    (fun v s => match s with Build_LabelAnnotator _ _ _ _ _ _ _ _ _ => eq_refl end)
                    st1) as Hp.
      rewrite Efile in Hp. cbn [fst snd] in Hp. rewrite Hp. exact Hitem1. }
    assert (Hc2 : module_client (snd st2) = None).
    { pose proof (steps__update_overlay_file only_queried only_queried_log st1)
        as (_ & _ & Hc & _).
      rewrite Efile in Hc. cbn [snd] in Hc. rewrite Hc. exact Hc1. }
    destruct st2 as [self2 w2]. cbn [fst snd] in Hitem2, Hc2.
    rewrite (unbound_client_raises self2 w2 iid Hitem2 Hc2) in Eann.
    discriminate.
Qed.

Lemma assignment_needs_module_client_witness :
  fst (set_girder_id (Some "item1") (init Demo.registry, Demo.world None))
  <> Ok tt.
Proof.
  exact (proj2 (assignment_needs_module_client (init Demo.registry)
                  (Demo.world None) eq_refl) "item1").
Defined.

(** The loop of the fallback when a follow-up call fails: the records
    fetched before it are kept. *)
Lemma fetch_each_fail c pre fulls s post e :
  Forall2 (fun s a => get c (GetAnnotation (ann_id s)) = Ok a) pre fulls ->
  get c (GetAnnotation (ann_id s)) = Raise e ->
  forall self w,
    fetch_each c (pre ++ s :: post) (self, w)
    = (Raise e,
       (match pre with
        | [] => self
        | _ => set_annotations_attr
                 (Some (default [] (_annotations self) ++ fulls)%list) self
        end,
        log (fetch_event s) (log_all (map fetch_event pre) w))).
Proof.
  intros Hpre Hfail.
  induction Hpre as [| s0 a pre fulls Hget Hrest IH]; intros self w.
  - cbn [app fetch_each]. unfold client_get, mbind, M_bind, bind, lift.
    cbn [modify_world fst snd]. cbn in Hfail. rewrite Hfail. reflexivity.
  - cbn [app fetch_each]. unfold client_get, mbind, M_bind, bind, lift.
    cbn [modify_world modify_self fst snd]. cbn in Hget. rewrite Hget.
    rewrite IH. cbn [map log_all fold_left]. f_equal. f_equal.
    destruct pre as [| s' pre].
    + inversion Hrest; subst. reflexivity.
    + rewrite set_annotations_attr_twice.
      destruct self; cbn. rewrite <- app_assoc. reflexivity.
Qed.

(** X8. Inside the fallback nothing is recovered: an exception of the
    summary listing comes out with the stored annotations as they were,
    and an exception of a per-id fetch (a 400 included) comes out with
    the stored annotations replaced by the records fetched before it. *)
Theorem fallback_failure_keeps_partial_list (self : LabelAnnotator)
    (w : World) (iid : string) (c : GirderClient) :
  _item_id self = Some iid ->
  module_client w = Some c ->
  get c (GetItemAnnotations iid) = Raise (HttpError 400) ->
  (forall e,
     get c (GetAnnotations iid 0) = Raise e ->
     let out := _update_annotations (self, w) in
     fst out = Raise e
     /\ _annotations (fst (snd out)) = _annotations self)
  /\ (forall pre s post fulls e,
        get c (GetAnnotations iid 0) = Ok (pre ++ s :: post)%list ->
        Forall2 (fun s a => get c (GetAnnotation (ann_id s)) = Ok a) pre fulls ->
        get c (GetAnnotation (ann_id s)) = Raise e ->
        let out := _update_annotations (self, w) in
        fst out = Raise e
        /\ _annotations (fst (snd out)) = Some fulls).
Proof.
  intros Hitem Hclient Hprimary.
  destruct self as [c0 cm g g' ov it oit ofile an].
  destruct w as [mc tr fs n]. simpl in Hitem, Hclient. subst it mc. split.
  - intros e Hlist out. subst out.
    unfold _update_annotations, try_except, global_client, client_get,
      mbind, M_bind, bind, lift.
    cbn [get_self get_world modify_world modify_self fst snd _item_id
         module_client log ret raise mret M_ret].
    cbn in Hprimary, Hlist. rewrite Hprimary.
    cbn [is_HttpError http_status]. rewrite bool_decide_eq_true_2 by reflexivity.
    cbn -[fetch_each]. rewrite Hlist. split; reflexivity.
  - intros pre s post fulls e Hlist Hpre Hfail out. subst out.
    unfold _update_annotations, try_except, global_client, client_get,
      mbind, M_bind, bind, lift.
    cbn [get_self get_world modify_world modify_self fst snd _item_id
         module_client log ret raise mret M_ret].
    cbn in Hprimary, Hlist. rewrite Hprimary.
    cbn [is_HttpError http_status]. rewrite bool_decide_eq_true_2 by reflexivity.
    cbn -[fetch_each]. rewrite Hlist.
    cbn -[fetch_each].
    rewrite (fetch_each_fail c pre fulls s post e Hpre Hfail).
    cbn [fst snd]. split; [reflexivity |].
    destruct pre; [inversion Hpre; reflexivity | reflexivity].
Qed.

Lemma fallback_failure_keeps_partial_list_witness :
  let c : GirderClient :=
    {| get := fun r =>
         match r as r0 return result (payload r0) with
         | GetItemAnnotations _ => Raise (HttpError 400)
         | GetAnnotations _ _ => Ok [Demo.tumor "a1"; Demo.tumor "gone"]
         | GetAnnotation i =>
             if String.eqb i "gone" then Raise (HttpError 400)
             else Ok (Demo.tumor i)
         | other => get Demo.registry other
         end;
       getItem := getItem Demo.registry;
       downloadFile := downloadFile Demo.registry |} in
  let out := _update_annotations
               (Demo.annotator c None None, Demo.world (Some c)) in
  fst out = Raise (HttpError 400)
  /\ _annotations (fst (snd out)) = Some [Demo.tumor "a1"].
Proof.
  intros c out.
  destruct (fallback_failure_keeps_partial_list
              (Demo.annotator c None None) (Demo.world (Some c)) "item1" c
              eq_refl eq_refl eq_refl) as [_ Hpartial].
  refine (Hpartial [Demo.tumor "a1"] (Demo.tumor "gone") []
                   [Demo.tumor "a1"] (HttpError 400) eq_refl _ eq_refl).
  repeat constructor.
Defined.

(** ** The assignment as a whole *)

(** X9. In base-item mode, with one overlay for the item, exactly one
    image file among the overlay's files and a full annotation list
    answered directly, the assignment succeeds after three queries (the
    overlays, the files, the annotations) and leaves the pair, the file
    and the list in the instance; the color map and the mode are not
    touched. *)
Theorem assignment_resolves_everything (self : LabelAnnotator) (w : World)
    (gid : string) (c : GirderClient) (o : overlay) (files : list file)
    (f : file) (l : list annotation) :
  _is_overlay_id self = false ->
  module_client w = Some c ->
  get (client self) (GetOverlays gid) = Ok [o] ->
  get (client self) (GetItemFiles (overlay_overlayItemId o) 2) = Ok files ->
  List.filter is_image files = [f] ->
  get c (GetItemAnnotations gid) = Ok l ->
  let out := set_girder_id (Some gid) (self, w) in
  fst out = Ok tt
  /\ item_id (fst (snd out)) = Some gid
  /\ overlay_item_id (fst (snd out)) = Some (overlay_overlayItemId o)
  /\ overlay_file (fst (snd out)) = Some f
  /\ _annotations (fst (snd out)) = Some l
  /\ colormap (fst (snd out)) = colormap self
  /\ is_overlay_id (fst (snd out)) = false
  /\ trace (snd (snd out))
     = (trace w ++ [EvGet (GetOverlays gid);
                    EvGet (GetItemFiles (overlay_overlayItemId o) 2);
                    EvGet (GetItemAnnotations gid)])%list.
Proof.
  intros Hmode Hclient Hov Hfiles Hone Hann out. subst out.
  destruct self as [c0 cm g g' ov it oit ofile an].
  destruct w as [mc tr fs n]. cbn [_is_overlay_id module_client client] in *.
  subst ov mc.
  unfold set_girder_id, client_get.
  unfold mbind, M_bind, bind, lift.
  cbn -[_update_overlay_file _update_annotations].
  cbn in Hov. rewrite Hov.
  cbn -[_update_overlay_file _update_annotations].
  match goal with
  | |- context [_update_overlay_file (?s, ?w0)] =>
      rewrite (single_file_located s w0 (overlay_overlayItemId o) files f
                 eq_refl Hfiles Hone)
  end.
  unfold _update_annotations, try_except, global_client, client_get,
    mbind, M_bind, bind, lift.
  cbn. cbn in Hann. rewrite Hann. cbn.
  repeat split. rewrite <- !app_assoc. reflexivity.
Qed.

Lemma assignment_resolves_everything_witness :
  let out := set_girder_id (Some "item1")
               (init Demo.registry, Demo.world (Some Demo.registry)) in
  fst out = Ok tt
  /\ overlay_file (fst (snd out)) = Some Demo.png
  /\ _annotations (fst (snd out)) = Some [Demo.tumor "a1"; Demo.tumor "a2"].
Proof.
  cbv zeta.
  destruct (assignment_resolves_everything (init Demo.registry)
              (Demo.world (Some Demo.registry)) "item1" Demo.registry
              Demo.the_overlay [Demo.png] Demo.png
              [Demo.tumor "a1"; Demo.tumor "a2"]
              eq_refl eq_refl eq_refl eq_refl eq_refl eq_refl)
    as (Hr & _ & _ & Hf & Ha & _).
  repeat split; assumption.
Defined.

(** X10. Assigning the identifier, whatever the identifier, the state
    and the outcome, only queries the registry: the events it adds are
    [get] and [getItem] calls, and it leaves the local files, the
    temporary-file counter and the module-level [client] as they were. *)
Theorem assignment_only_queries (g : option string)
    (st : LabelAnnotator * World) :
  only_queried (snd st) (snd (snd (set_girder_id g st))).
Proof. apply (steps_set_girder_id only_queried only_queried_log). Qed.

(** ** Acquiring the image, continued *)

Ltac traffic_step :=
  first
    [ split; [reflexivity | exists []; split;
                              [symmetry; apply app_nil_r | reflexivity]]
    | split; [reflexivity | eexists [_]; split; reflexivity] ].

Ltac steps_auto R :=
  repeat match goal with
  | |- forall _, _ => intro
  | |- world_steps _ (mbind _ _) => apply (steps_bind R)
  | |- world_steps _ (mret _) => apply (steps_ret R)
  | |- world_steps _ (ret _) => apply (steps_ret R)
  | |- world_steps _ (raise _) => apply (steps_raise R)
  | |- world_steps _ (lift _) => apply (steps_lift R)
  | |- world_steps _ get_self => apply (steps_get_self R)
  | |- world_steps _ get_world => apply (steps_get_world R)
  | |- world_steps _ (modify_self _) => apply (steps_modify_self R)
  | |- world_steps _ (modify_world _) =>
      apply (steps_modify_world R); intros ?; traffic_step
  | |- world_steps _ (try_except _ _ _) => apply (steps_try_except R)
  | |- world_steps _ (match ?x with _ => _ end) => destruct x
  end.

Lemma image_file_traffic ext : world_steps only_file_traffic (image_file ext).
Proof.
  unfold image_file, NamedTemporaryFile, client_downloadFile.
  steps_auto only_file_traffic.
Qed.

Lemma image_traffic ext : world_steps only_file_traffic (image ext).
Proof.
  unfold image.
  apply (steps_bind only_file_traffic); [apply image_file_traffic |].
  unfold tempfile_name, decode, close. steps_auto only_file_traffic.
Qed.

Lemma _draw_annotations_traffic ext :
  world_steps only_file_traffic (_draw_annotations ext).
Proof.
  unfold _draw_annotations.
  apply (steps_bind only_file_traffic); [apply image_traffic |].
  steps_auto only_file_traffic.
Qed.

Lemma _draw_annotations_preserves {B} (proj : LabelAnnotator -> B) ext :
  preserves proj (_draw_annotations ext).
Proof.
  unfold _draw_annotations.
  apply preserves_bind; [apply image_preserves |].
  preserves_auto.
Qed.

(** X11. Reading the image and saving never change an attribute of the
    instance, whatever the outcome; reading the image adds temporary-file
    events only (creation, download, close): it sends no query and
    writes no output. *)
Theorem rendering_leaves_instance (ext : Externals)
    (st : LabelAnnotator * World) (output_filename : string) :
  fst (snd (image ext st)) = fst st
  /\ fst (snd (save ext output_filename st)) = fst st
  /\ only_file_traffic (snd st) (snd (snd (image ext st))).
Proof.
  split; [| split].
  - apply (image_preserves (fun s => s)).
  - apply (save_preserves (fun s => s)).
  - apply image_traffic.
Qed.

(** X12. [save] hands the image to the encoder only after acquisition,
    grouping and drawing all succeeded: until then no output event is
    added, an exception of those steps is the exception of [save], and
    on success the outcome of [save] is the outcome of the encoder on
    the drawn image. *)
Theorem save_writes_only_after_drawing (ext : Externals)
    (st : LabelAnnotator * World) (output_filename : string) :
  let drawn := _draw_annotations ext st in
  nothing_saved (snd st) (snd (snd drawn))
  /\ (forall e, fst drawn = Raise e ->
        save ext output_filename st = (Raise e, snd drawn))
  /\ (forall im, fst drawn = Ok im ->
        save ext output_filename st
        = (Image_save ext im output_filename,
           (fst (snd drawn), log (EvSave output_filename) (snd (snd drawn))))).
Proof.
  cbv zeta. split; [| split].
  - destruct (_draw_annotations_traffic ext st) as [_ Hgrew].
    eapply grew_by_weaken; [| exact Hgrew].
    intros [] H; try discriminate; reflexivity.
  - intros e He. unfold save.
    destruct (_draw_annotations ext st) as [r st1] eqn:E. cbn [fst snd] in *.
    subst r. apply bind_Raise. exact E.
  - intros im Him. unfold save.
    destruct (_draw_annotations ext st) as [r [self1 w1]] eqn:E.
    cbn [fst snd] in *. subst r.
    rewrite (bind_Ok _ _ _ _ _ E). reflexivity.
Qed.

(** X13. Drawing starts with the image: an exception of the acquisition
    is the exception of drawing, whatever the color map; with no
    annotations fetched the decoded image comes back as it is, with or
    without a color map; with annotations fetched and no color map the
    configuration error is raised only after the file was downloaded
    and decoded. *)
Theorem drawing_starts_with_the_image (ext : Externals)
    (st : LabelAnnotator * World) :
  (forall e st1,
     image ext st = (Raise e, st1) -> _draw_annotations ext st = (Raise e, st1))
  /\ (forall im st1,
        image ext st = (Ok im, st1) ->
        _annotations (fst st) = None ->
        _draw_annotations ext st = (Ok im, st1))
  /\ (forall im st1 l,
        image ext st = (Ok im, st1) ->
        _annotations (fst st) = Some l ->
        _colormap (fst st) = None ->
        _draw_annotations ext st
        = (Raise (ValueError "no color mapping set"), st1)).
Proof.
  split; [| split].
  - intros e st1 E. unfold _draw_annotations. apply bind_Raise. exact E.
  - intros im st1 E Hann. unfold _draw_annotations.
    rewrite (bind_Ok _ _ _ _ _ E).
    pose proof (image_preserves (fun s => s) ext st) as Hself.
    rewrite E in Hself. cbn [fst snd] in Hself.
    unfold mbind, M_bind, bind, get_self, lift, annotations,
      _annotations_iterator.
    cbn [fst snd]. rewrite Hself, Hann. reflexivity.
  - intros im st1 l E Hann Hcm. unfold _draw_annotations.
    rewrite (bind_Ok _ _ _ _ _ E).
    pose proof (image_preserves (fun s => s) ext st) as Hself.
    rewrite E in Hself. cbn [fst snd] in Hself.
    unfold mbind, M_bind, bind, get_self, lift, annotations,
      _annotations_iterator.
    cbn [fst snd]. rewrite Hself, Hann, Hcm. reflexivity.
Qed.

(** X14. With no overlay file in the instance, as after the identifier
    was set to [None], reading the image and saving raise AttributeError
    (the temporary file is [None]); nothing is created, downloaded or
    written. *)
Theorem no_overlay_file_AttributeError (ext : Externals)
    (self : LabelAnnotator) (w : World) (output_filename : string) :
  (_overlay_file self = None ->
   image ext (self, w) = (Raise (AttributeError "name"), (self, w))
   /\ save ext output_filename (self, w)
      = (Raise (AttributeError "name"), (self, w)))
  /\ fst (save ext output_filename (snd (set_girder_id None (self, w))))
     = Raise (AttributeError "name").
Proof.
  split.
  - intros Hfile. destruct self as [c cm g g' ov it oit ofile an].
    simpl in Hfile. subst ofile. split; reflexivity.
  - destruct self as [c cm g g' ov it oit ofile an]. reflexivity.
Qed.

Lemma save_writes_only_after_drawing_witness :
  let st := (Demo.annotator Demo.registry None (Some [Demo.tumor "a1"]),
             Demo.world None) in
  fst (save Demo.ext "out.png" st) = Raise (ValueError "no color mapping set")
  /\ List.filter is_save (trace (snd (snd (save Demo.ext "out.png" st)))) = [].
Proof.
  cbv zeta.
  destruct (save_writes_only_after_drawing Demo.ext
              (Demo.annotator Demo.registry None (Some [Demo.tumor "a1"]),
               Demo.world None) "out.png") as (_ & Hfail & _).
  rewrite (Hfail (ValueError "no color mapping set") eq_refl).
  split; reflexivity.
Defined.

Lemma drawing_starts_with_the_image_witness :
  _draw_annotations Demo.ext
    (Demo.annotator Demo.registry None None, Demo.world None)
  = image Demo.ext (Demo.annotator Demo.registry None None, Demo.world None).
Proof.
  destruct (drawing_starts_with_the_image Demo.ext
              (Demo.annotator Demo.registry None None, Demo.world None))
    as (_ & Hnone & _).
  rewrite (Hnone Demo.blank
             (snd (image Demo.ext
                     (Demo.annotator Demo.registry None None, Demo.world None)))
             eq_refl eq_refl).
  reflexivity.
Defined.

Lemma no_overlay_file_AttributeError_witness :
  fst (image Demo.ext (init Demo.registry, Demo.world None))
  = Raise (AttributeError "name").
Proof.
  destruct (no_overlay_file_AttributeError Demo.ext (init Demo.registry)
              (Demo.world None) "out.png") as [Hnone _].
  rewrite (proj1 (Hnone eq_refl)). reflexivity.
Defined.

(** X15. When a decoder succeeds, the general one or, after its I/O
    error, the tiled one, the image is returned with the temporary file
    closed: its path is no longer among the local files and the events
    are its creation, the download and the close, in that order. *)
Theorem decoded_image_releases_temporary_file (ext : Externals)
    (self : LabelAnnotator) (w : World) (f : file) (bytes : string)
    (im : Image) :
  _overlay_file self = Some f ->
  downloadFile (client self) (file_id f) = Ok bytes ->
  Image_open ext bytes = Ok im
  \/ (exists e1, Image_open ext bytes = Raise e1 /\ is_IOError e1 = true
                 /\ pytiff_open ext bytes = Ok im) ->
  let name := temp_name ext (temp_counter w) (snd (splitext ext (file_name f))) in
  let out := image ext (self, w) in
  fst out = Ok im
  /\ local_files (snd (snd out)) !! name = None
  /\ trace (snd (snd out))
     = (trace w ++ [EvTempFile name; EvDownloadFile (file_id f) name;
                    EvClose name])%list.
Proof.
  intros Hf Hd Hdec name out.
  assert (E : out = (Ok im, (self, released ext f bytes w))).
  { subst out. destruct Hdec as [Hopen | (e1 & Hopen & Hio & Htiff)].
    - apply image_primary_ok; assumption.
    - apply (image_fallback_ok ext self w f bytes e1); assumption. }
  rewrite E. cbn [fst snd]. split; [reflexivity | split].
  - unfold released, remove_file. cbn [local_files log set_local_files].
    apply lookup_delete_eq.
  - unfold released, downloaded, remove_file, write_file.
    cbn [trace log set_local_files bump_temp_counter].
    rewrite <- !app_assoc. reflexivity.
Qed.

Lemma decoded_image_releases_temporary_file_witness :
  let tiled := Demo.annotator (Demo.registry_serving "TIFF") None None in
  fst (image Demo.ext (tiled, Demo.world None)) = Ok Demo.blank
  /\ local_files (snd (snd (image Demo.ext (tiled, Demo.world None))))
       !! "/tmp/tmp0.png" = None.
Proof.
  cbv zeta.
  destruct (decoded_image_releases_temporary_file Demo.ext
              (Demo.annotator (Demo.registry_serving "TIFF") None None)
              (Demo.world None) Demo.png "TIFF" Demo.blank eq_refl eq_refl)
    as (Hr & Hgone & _).
  - right. exists (IOError "cannot identify image file").
    repeat split.
  - split; [exact Hr | exact Hgone].
Defined.

(** X16. The tiled decoder is tried only after an I/O error: any other
    exception of the general decoder leaves [image] at once, whatever
    the tiled decoder would have answered, with the temporary file still
    among the local files and never closed. *)
Theorem fallback_only_after_io_error (ext : Externals)
    (self : LabelAnnotator) (w : World) (f : file) (bytes : string)
    (e1 : exn) :
  _overlay_file self = Some f ->
  downloadFile (client self) (file_id f) = Ok bytes ->
  Image_open ext bytes = Raise e1 ->
  is_IOError e1 = false ->
  let name := temp_name ext (temp_counter w) (snd (splitext ext (file_name f))) in
  let out := image ext (self, w) in
  fst out = Raise e1
  /\ local_files (snd (snd out)) !! name = Some bytes
  /\ trace (snd (snd out))
     = (trace w ++ [EvTempFile name; EvDownloadFile (file_id f) name])%list.
Proof.
  intros Hf Hd Hopen Hio name out. subst out.
  rewrite (image_unexpected ext self w f bytes e1 Hf Hd Hopen Hio).
  cbn [fst snd]. split; [reflexivity | split].
  - unfold downloaded, write_file. cbn [local_files set_local_files].
    apply lookup_insert_eq.
  - unfold downloaded, write_file.
    cbn [trace log set_local_files bump_temp_counter].
    rewrite <- !app_assoc. reflexivity.
Qed.

Lemma fallback_only_after_io_error_witness :
  let ext :=
    {| read_json := read_json Demo.ext; splitext := splitext Demo.ext;
       temp_name := temp_name Demo.ext;
       Image_open := fun _ => Raise (OtherError "DecompressionBombError");
       pytiff_open := fun _ => Ok Demo.blank;
       ImageDraw_call := ImageDraw_call Demo.ext;
       Image_save := Image_save Demo.ext |} in
  fst (image ext (Demo.annotator Demo.registry None None, Demo.world None))
  = Raise (OtherError "DecompressionBombError").
Proof.
  intros ext.
  exact (proj1 (fallback_only_after_io_error ext
                  (Demo.annotator Demo.registry None None) (Demo.world None)
                  Demo.png "PNG" (OtherError "DecompressionBombError")
                  eq_refl eq_refl eq_refl eq_refl)).
Defined.

(** X17. When the download fails its exception leaves [image]; no
    decoder is consulted and the temporary file, created empty before
    the download, is still among the local files. *)
Theorem failed_download_leaves_temporary_file (ext : Externals)
    (self : LabelAnnotator) (w : World) (f : file) (e : exn) :
  _overlay_file self = Some f ->
  downloadFile (client self) (file_id f) = Raise e ->
  let name := temp_name ext (temp_counter w) (snd (splitext ext (file_name f))) in
  let out := image ext (self, w) in
  fst out = Raise e
  /\ fst (snd out) = self
  /\ local_files (snd (snd out)) !! name = Some ""
  /\ trace (snd (snd out))
     = (trace w ++ [EvTempFile name; EvDownloadFile (file_id f) name])%list.
Proof.
  intros Hf Hd name out. subst out name.
  unfold image, image_file, NamedTemporaryFile, client_downloadFile,
    mbind, M_bind, bind, lift.
  cbn -[insert lookup]. rewrite Hf. cbn -[insert lookup]. rewrite Hd.
  cbn -[insert lookup]. split; [reflexivity | split; [reflexivity | split]].
  - unfold write_file. cbn [local_files set_local_files].
    apply lookup_insert_eq.
  - rewrite <- !app_assoc. reflexivity.
Qed.

Lemma failed_download_leaves_temporary_file_witness :
  let c : GirderClient :=
    {| get := get Demo.registry; getItem := getItem Demo.registry;
       downloadFile := fun _ => Raise (HttpError 404) |} in
  fst (image Demo.ext (Demo.annotator c None None, Demo.world None))
  = Raise (HttpError 404).
Proof.
  intros c.
  exact (proj1 (failed_download_leaves_temporary_file Demo.ext
                  (Demo.annotator c None None) (Demo.world None)
                  Demo.png (HttpError 404) eq_refl eq_refl)).
Defined.

(** ** Grouping, continued *)

Section GroupbyPartition.

Context {A K : Type} `{EqDecision K} (key : A -> K).

Lemma groupby_from_partition l :
  forall tgtkey grp,
    grp <> [] ->
    Forall (fun a => key a = tgtkey) grp ->
    Forall (run_ok key) (groupby_from key tgtkey grp l)
    /\ adjacent_differ (map fst (groupby_from key tgtkey grp l))
    /\ concat (map snd (groupby_from key tgtkey grp l)) = (rev grp ++ l)%list
    /\ exists g rest, groupby_from key tgtkey grp l = (tgtkey, g) :: rest.
Proof.
  induction l as [| x l IH]; intros tgtkey grp Hne Hkeys; cbn [groupby_from].
  - split; [| split; [| split]].
    + constructor; [| constructor]. split; cbn [fst snd].
      * intros Hrev. apply Hne. rewrite <- (rev_involutive grp), Hrev. reflexivity.
      * apply List.Forall_rev. exact Hkeys.
    + exact I.
    + cbn [map snd concat]. reflexivity.
    + eauto.
  - destruct (decide (key x = tgtkey)) as [E | E].
    + destruct (IH tgtkey (x :: grp)) as (Hok & Hadj & Hcat & Hhead).
      * discriminate.
      * constructor; assumption.
      * split; [exact Hok | split; [exact Hadj | split; [| exact Hhead]]].
        rewrite Hcat. cbn [rev]. rewrite <- app_assoc. reflexivity.
    + destruct (IH (key x) [x]) as (Hok & Hadj & Hcat & (g & rest & Hhead)).
      * discriminate.
      * constructor; [reflexivity | constructor].
      * split; [| split; [| split]].
        -- constructor; [| exact Hok]. split; cbn [fst snd].
           ++ intros Hrev. apply Hne.
              rewrite <- (rev_involutive grp), Hrev. reflexivity.
           ++ apply List.Forall_rev. exact Hkeys.
        -- rewrite Hhead in Hadj |- *. cbn [map fst adjacent_differ] in *.
           split; [congruence | exact Hadj].
        -- cbn [map snd concat]. rewrite Hcat. reflexivity.
        -- eauto.
Qed.

Lemma groupby_runs_of (l : list A) :
  is_runs key (groupby key l)
  /\ concat (map snd (groupby key l)) = l.
Proof.
  destruct l as [| x l]; [split; [split; [constructor | exact I] | reflexivity] |].
  cbn [groupby].
  destruct (groupby_from_partition l (key x) [x]) as (Hok & Hadj & Hcat & _).
  - discriminate.
  - constructor; [reflexivity | constructor].
  - split; [split; assumption | exact Hcat].
Qed.

(** X18. [groupby] cuts any sequence into its maximal runs: every group
    is non-empty, all its records have the group's key, neighbouring
    groups have different keys, and the groups put end to end are the
    sequence itself: no record is lost, repeated or moved. *)
Theorem groupby_partitions (l : list A) :
  is_runs key (groupby key l)
  /\ concat (map snd (groupby key l)) = l.
Proof. exact (groupby_runs_of l). Qed.

End GroupbyPartition.

Lemma filter_labelled_None (g : list annotation) :
  Forall (fun a => keyfunc a = None) g -> List.filter labelled g = [].
Proof.
  induction 1 as [| a g Ha _ IH]; [reflexivity |].
  cbn [List.filter].
  replace (labelled a) with false
    by (unfold labelled; unfold keyfunc in Ha; rewrite Ha; reflexivity).
  exact IH.
Qed.

Lemma filter_labelled_Some (n : string) (g : list annotation) :
  Forall (fun a => keyfunc a = Some n) g -> List.filter labelled g = g.
Proof.
  induction 1 as [| a g Ha _ IH]; [reflexivity |].
  cbn [List.filter].
  replace (labelled a) with true
    by (unfold labelled; unfold keyfunc in Ha; rewrite Ha; reflexivity).
  rewrite IH. reflexivity.
Qed.

Lemma annotations_loop_complete colormap groups :
  Forall (run_ok keyfunc) groups ->
  (forall n g, In (Some n, g) groups -> is_Some (colormap !! n)) ->
  raised (annotations_loop colormap groups) = None
  /\ concat (map snd (yielded (annotations_loop colormap groups)))
     = List.filter labelled (concat (map snd groups))
  /\ Forall (fun o => snd o <> []
                      /\ exists n, colormap !! n = Some (fst o)
                                   /\ Forall (fun a => ann_name a = Some n) (snd o))
            (yielded (annotations_loop colormap groups)).
Proof.
  induction 1 as [| [[n |] g] groups [Hne Hkeys] _ IH]; intros Hcomplete.
  - repeat split. constructor.
  - cbn [fst snd] in Hne, Hkeys.
    destruct (Hcomplete n g) as [c Hc]; [left; reflexivity |].
    destruct IH as (Hr & Hy & Hg);
      [intros n' g' Hin; apply (Hcomplete n' g'); right; exact Hin |].
    cbn [annotations_loop]. rewrite Hc. cbn [yield yielded raised map snd concat].
    repeat split.
    + exact Hr.
    + rewrite List.filter_app, (filter_labelled_Some n g Hkeys), Hy. reflexivity.
    + constructor; [| exact Hg]. cbn [fst snd].
      split; [exact Hne | exists n; split; [exact Hc | exact Hkeys]].
  - cbn [fst snd] in Hne, Hkeys.
    destruct IH as (Hr & Hy & Hg);
      [intros n' g' Hin; apply (Hcomplete n' g'); right; exact Hin |].
    cbn [annotations_loop map snd concat].
    repeat split; try assumption.
    rewrite List.filter_app, (filter_labelled_None g Hkeys), Hy. reflexivity.
Qed.

(** X19. For any fetched sequence, in any order, whose labels all have a
    color: the generator ends normally; the records it yields, group
    after group, are exactly the labelled records of the sequence in
    their order (every unlabeled record is left out, nothing else is);
    and every group is non-empty, of one label, paired with that label's
    color. *)
Theorem grouper_yields_labelled_records (self : LabelAnnotator)
    (l : list annotation) (colormap : gmap string color) :
  _annotations self = Some l ->
  _colormap self = Some colormap ->
  (forall a n, In a l -> ann_name a = Some n -> is_Some (colormap !! n)) ->
  raised (annotations self) = None
  /\ concat (map snd (yielded (annotations self))) = List.filter labelled l
  /\ Forall (fun o => snd o <> []
                      /\ exists n, colormap !! n = Some (fst o)
                                   /\ Forall (fun a => ann_name a = Some n) (snd o))
            (yielded (annotations self)).
Proof.
  intros Hann Hcm Hcomplete.
  unfold annotations, _annotations_iterator. rewrite Hann, Hcm.
  destruct (groupby_runs_of keyfunc l) as [[Hok _] Hcat].
  destruct (annotations_loop_complete colormap (groupby keyfunc l) Hok)
    as (Hr & Hy & Hg).
  - intros n g Hin.
    assert (Hk : In (Some n) (map keyfunc l)).
    { apply (groupby_keys keyfunc). apply in_map_iff.
      exists (Some n, g). split; [reflexivity | exact Hin]. }
    apply in_map_iff in Hk as (a & Hname & Ha).
    exact (Hcomplete a n Ha Hname).
  - rewrite Hcat in Hy. repeat split; assumption.
Qed.

Lemma grouper_yields_labelled_records_witness :
  let self := Demo.annotator Demo.registry (Some Demo.cmap)
                (Some [Demo.tumor "a1"; Demo.stroma "b1"; Demo.unlabeled;
                       Demo.tumor "a2"]) in
  raised (annotations self) = None
  /\ concat (map snd (yielded (annotations self)))
     = [Demo.tumor "a1"; Demo.stroma "b1"; Demo.tumor "a2"].
Proof.
  cbv zeta.
  destruct (grouper_yields_labelled_records
              (Demo.annotator Demo.registry (Some Demo.cmap)
                 (Some [Demo.tumor "a1"; Demo.stroma "b1"; Demo.unlabeled;
                        Demo.tumor "a2"]))
              [Demo.tumor "a1"; Demo.stroma "b1"; Demo.unlabeled; Demo.tumor "a2"]
              Demo.cmap eq_refl eq_refl) as (Hr & Hy & _).
  - intros a n [<- | [<- | [<- | [<- | []]]]] [= <-];
      eexists; vm_compute; reflexivity.
  - split; [exact Hr | exact Hy].
Defined.

(** ** Rendering, continued *)

(** X20. An element whose type is none of point, rectangle and polyline
    raises the validation error naming the type, and that ends the
    drawing of the elements it stands in front of. *)
Theorem unknown_element_type (ext : Externals) (color : color) (e : element) :
  el_type e <> "point" ->
  el_type e <> "rectangle" ->
  el_type e <> "polyline" ->
  draw_element color e
  = Raise (ValueError ("invalid element type: " ++ el_type e))
  /\ kind_of (ValueError ("invalid element type: " ++ el_type e))
     = Some ValidationError
  /\ forall rest im,
       draw_elements ext color (e :: rest) im
       = Raise (ValueError ("invalid element type: " ++ el_type e)).
Proof.
  intros Hp Hr Hl.
  assert (E : draw_element color e
              = Raise (ValueError ("invalid element type: " ++ el_type e))).
  { unfold draw_element.
    rewrite (proj2 (String.eqb_neq _ _) Hp), (proj2 (String.eqb_neq _ _) Hr),
      (proj2 (String.eqb_neq _ _) Hl). reflexivity. }
  split; [exact E | split].
  - reflexivity.
  - intros rest im. cbn [draw_elements]. rewrite E. reflexivity.
Qed.

Lemma unknown_element_type_witness :
  draw_element Demo.red
    {| el_type := "ellipse"; el_center := Some [1; 2; 0]; el_width := Some 3;
       el_height := Some 4; el_points := None |}
  = Raise (ValueError "invalid element type: ellipse").
Proof.
  refine (proj1 (unknown_element_type Demo.ext Demo.red
                   {| el_type := "ellipse"; el_center := Some [1; 2; 0];
                      el_width := Some 3; el_height := Some 4;
                      el_points := None |} _ _ _));
    discriminate.
Defined.

(** X21. A point element without a center raises KeyError 'center',
    which ends the drawing of the elements it heads. With a center it
    leads to exactly one [point] call, on the first two coordinates of
    the center (on fewer when the center is shorter: no IndexError,
    unlike the rectangle) and with fill the group's color; drawing the
    element is the outcome of that call. *)
Theorem point_rendering (ext : Externals) (color : color) (e : element) :
  el_type e = "point" ->
  (el_center e = None ->
   draw_element color e = Raise (KeyError "center")
   /\ forall rest im,
        draw_elements ext color (e :: rest) im = Raise (KeyError "center"))
  /\ (forall center,
        el_center e = Some center ->
        draw_element color e = Ok (DrawPoint [take 2 center] color)
        /\ forall im,
             draw_elements ext color [e] im
             = ImageDraw_call ext (DrawPoint [take 2 center] color) im)
  /\ (forall cx cy rest,
        el_center e = Some (cx :: cy :: rest) ->
        draw_element color e = Ok (DrawPoint [[cx; cy]] color)).
Proof.
  intros Htype. split; [| split].
  - intros Hnone.
    assert (E : draw_element color e = Raise (KeyError "center")).
    { unfold draw_element. rewrite Htype, Hnone. reflexivity. }
    split; [exact E |]. intros rest im. cbn [draw_elements]. rewrite E.
    reflexivity.
  - intros center Hcenter.
    assert (E : draw_element color e = Ok (DrawPoint [take 2 center] color)).
    { unfold draw_element. rewrite Htype, Hcenter. reflexivity. }
    split; [exact E | exact (draw_one_element ext color e _ E)].
  - intros cx cy rest Hcenter. unfold draw_element.
    rewrite Htype, Hcenter. reflexivity.
Qed.

Lemma point_rendering_witness :
  let e := {| el_type := "point"; el_center := Some [3; 4; 0];
              el_width := None; el_height := None; el_points := None |} in
  draw_element Demo.red e = Ok (DrawPoint [[3; 4]] Demo.red)
  /\ draw_elements Demo.ext Demo.red [e] Demo.blank
     = ImageDraw_call Demo.ext (DrawPoint [[3; 4]] Demo.red) Demo.blank.
Proof.
  intros e.
  destruct (point_rendering Demo.ext Demo.red e eq_refl) as (_ & Hsome & _).
  destruct (Hsome [3; 4; 0] eq_refl) as [Hcall Hdraw].
  split; [exact Hcall | exact (Hdraw Demo.blank)].
Defined.

Lemma index_take2 (c : list Z) (i : nat) :
  (i < 2)%nat -> index (take 2 c) i = index c i.
Proof.
  intros Hi. destruct c as [| a [| b c]]; destruct i as [| [| i]];
    try reflexivity; lia.
Qed.

Lemma take2_take2 (c : list Z) : take 2 (take 2 c) = take 2 c.
Proof. destruct c as [| a [| b c]]; reflexivity. Qed.

(** X22. Only the first two coordinates of a center and of each point
    are ever used: an element and the same element with its center and
    points cut to two coordinates lead to the same call, or to the same
    exception. *)
Theorem depth_is_ignored (color : color) (e : element) :
  draw_element color (flat e) = draw_element color e.
Proof.
  destruct e as [t c wd ht pts]. unfold draw_element, flat.
  cbn [el_type el_center el_width el_height el_points].
  destruct (String.eqb t "point").
  - destruct c as [c |]; cbn; [rewrite take2_take2 |]; reflexivity.
  - destruct (String.eqb t "rectangle").
    + destruct c as [c |]; [| reflexivity].
      cbn [fmap option_fmap option_map getitem mbind result_bind].
      rewrite take2_take2, !index_take2 by lia. reflexivity.
    + destruct (String.eqb t "polyline"); [| reflexivity].
      destruct pts as [pts |]; [| reflexivity].
      cbn [fmap option_fmap option_map getitem mbind result_bind].
      rewrite map_map.
      rewrite (map_ext (fun p => take 2 (take 2 p)) (take 2))
        by (intros p; apply take2_take2).
      reflexivity.
Qed.

(** X23. A rectangle element with a part of its geometry missing raises
    before any call is made, in the order the fields are read: no center
    is KeyError 'center'; an empty center is IndexError; no width is
    KeyError 'width', read before the second coordinate; a center of one
    coordinate with a width is IndexError; no height is KeyError
    'height'. *)
Theorem rectangle_missing_geometry (color : color) (e : element) :
  el_type e = "rectangle" ->
  (el_center e = None -> draw_element color e = Raise (KeyError "center"))
  /\ (el_center e = Some [] -> draw_element color e = Raise IndexError)
  /\ (forall x rest,
        el_center e = Some (x :: rest) -> el_width e = None ->
        draw_element color e = Raise (KeyError "width"))
  /\ (forall x w,
        el_center e = Some [x] -> el_width e = Some w ->
        draw_element color e = Raise IndexError)
  /\ (forall x y rest w,
        el_center e = Some (x :: y :: rest) -> el_width e = Some w ->
        el_height e = None ->
        draw_element color e = Raise (KeyError "height")).
Proof.
  intros Htype. unfold draw_element. rewrite Htype.
  cbn [String.eqb Ascii.eqb Bool.eqb].
  repeat split.
  - intros ->. reflexivity.
  - intros ->. reflexivity.
  - intros x rest -> ->. reflexivity.
  - intros x w -> ->. reflexivity.
  - intros x y rest w -> -> ->. reflexivity.
Qed.

Lemma rectangle_missing_geometry_witness :
  draw_element Demo.red
    {| el_type := "rectangle"; el_center := Some [7]; el_width := None;
       el_height := Some 2; el_points := None |}
  = Raise (KeyError "width").
Proof.
  destruct (rectangle_missing_geometry Demo.red
              {| el_type := "rectangle"; el_center := Some [7];
                 el_width := None; el_height := Some 2; el_points := None |}
              eq_refl) as (_ & _ & Hwidth & _).
  exact (Hwidth 7 [] eq_refl eq_refl).
Defined.



(** ** The color map setter *)

(** X25. A missing or empty file name clears the color map without
    reading anything; when reading the file fails the exception comes
    out and the color map set before is kept. In no case is the world or
    another attribute touched. *)
Theorem colormap_setter_edges (ext : Externals) (self : LabelAnnotator)
    (w : World) :
  set_colormap ext None (self, w) = (Ok tt, (set_colormap_attr None self, w))
  /\ set_colormap ext (Some "") (self, w)
     = (Ok tt, (set_colormap_attr None self, w))
  /\ (forall f e,
        f <> "" -> read_json ext f = Raise e ->
        set_colormap ext (Some f) (self, w) = (Raise e, (self, w)))
  /\ (forall f,
        let out := set_colormap ext f (self, w) in
        snd (snd out) = w
        /\ item_id (fst (snd out)) = item_id self
        /\ overlay_item_id (fst (snd out)) = overlay_item_id self
        /\ overlay_file (fst (snd out)) = overlay_file self
        /\ _annotations (fst (snd out)) = _annotations self).
Proof.
  split; [reflexivity | split; [reflexivity | split]].
  - intros f e Hf Hread. destruct f as [| ch f]; [congruence |].
    unfold set_colormap, mbind, M_bind, bind, lift. rewrite Hread. reflexivity.
  - intros f. cbv zeta. unfold set_colormap.
    destruct f as [[| ch f] |]; try (destruct self; repeat split; fail).
    unfold mbind, M_bind, bind, lift.
    destruct (read_json ext (String ch f)); destruct self; repeat split.
Qed.

Lemma colormap_setter_edges_witness :
  let ext :=
    {| read_json := fun _ => Raise (IOError "No such file or directory");
       splitext := splitext Demo.ext; temp_name := temp_name Demo.ext;
       Image_open := Image_open Demo.ext; pytiff_open := pytiff_open Demo.ext;
       ImageDraw_call := ImageDraw_call Demo.ext;
       Image_save := Image_save Demo.ext |} in
  let self := Demo.annotator Demo.registry (Some Demo.cmap) None in
  colormap (fst (snd (set_colormap ext (Some "missing.json")
                        (self, Demo.world None)))) = Some Demo.cmap.
Proof.
  intros ext self.
  destruct (colormap_setter_edges ext self (Demo.world None))
    as (_ & _ & Hfail & _).
  rewrite (Hfail "missing.json" (IOError "No such file or directory")
             ltac:(discriminate) eq_refl).
  reflexivity.
Defined.

(** ** The script *)

Lemma set_colormap_world ext f st :
  snd (snd (set_colormap ext f st)) = snd st.
Proof.
  unfold set_colormap. destruct f as [[| ch f] |]; try reflexivity.
  unfold mbind, M_bind, bind, lift.
  destruct (read_json ext (String ch f)); reflexivity.
Qed.

(** X26. The script binds the module-level [client], logs in, then
    loads the color map, sets the mode, assigns the identifier and
    saves, in that order, and the first exception ends it with the state
    reached: a failed login leaves no annotator, the name [client]
    bound; a failed load of the color map leaves the world as it was at
    the login; a failed assignment has only queried the registry; a
    failure of acquisition or drawing has added temporary-file traffic
    only; and when all of them succeed, and only then, the encoder is
    called on the drawn image, its outcome is the script's and the
    output event comes last. *)
Theorem script_steps_in_order (ext : Externals)
    (GirderClient_new : string -> GirderClient)
    (authenticate : GirderClient -> string -> credentials -> result unit)
    (args : Args) (w : World) :
  let client := GirderClient_new (args_url args) in
  let w0 := bind_module_client client w in
  let login := authenticate client (args_username args) (credentials_of args) in
  let out := main ext GirderClient_new authenticate args w in
  (forall e, login = Raise e -> out = (Raise e, (None, w0)))
  /\ (login = Ok tt ->
      let loaded := set_colormap ext (Some (args_colormap args))
                      (init client, w0) in
      (forall e, fst loaded = Raise e ->
         out = (Raise e, (Some (fst (snd loaded)), w0)))
      /\ (fst loaded = Ok tt ->
          let assigned :=
            set_girder_id (Some (args_id args))
              (set_is_overlay_id_attr (args_overlay args) (fst (snd loaded)),
               w0) in
          only_queried w0 (snd (snd assigned))
          /\ (forall e, fst assigned = Raise e ->
                out = (Raise e,
                       (Some (fst (snd assigned)), snd (snd assigned))))
          /\ (fst assigned = Ok tt ->
              let drawn := _draw_annotations ext (snd assigned) in
              only_file_traffic (snd (snd assigned)) (snd (snd drawn))
              /\ (forall e, fst drawn = Raise e ->
                    out = (Raise e,
                           (Some (fst (snd drawn)), snd (snd drawn))))
              /\ (forall im, fst drawn = Ok im ->
                    out = (Image_save ext im (args_output args),
                           (Some (fst (snd drawn)),
                            log (EvSave (args_output args))
                              (snd (snd drawn)))))))).
Proof.
  cbv zeta. unfold main. split.
  - intros e ->. reflexivity.
  - intros ->. unfold annotate.
    set (c := GirderClient_new (args_url args)).
    set (w0 := bind_module_client c w).
    pose proof (set_colormap_world ext (Some (args_colormap args))
                  (init c, w0)) as Hw1.
    destruct (set_colormap ext (Some (args_colormap args)) (init c, w0))
      as [r1 [self1 w1]] eqn:E1.
    cbn [fst snd] in *. subst w1. split.
    + intros e ->. rewrite (bind_Raise _ _ _ _ _ E1). reflexivity.
    + intros ->. rewrite (bind_Ok _ _ _ _ _ E1).
      rewrite (bind_Ok (set_is_overlay_id (args_overlay args)) _
                 (self1, w0) tt
                 (set_is_overlay_id_attr (args_overlay args) self1, w0)
                 eq_refl).
      pose proof (steps_set_girder_id only_queried only_queried_log
                    (Some (args_id args))
                    (set_is_overlay_id_attr (args_overlay args) self1, w0))
        as Hq.
      destruct (set_girder_id (Some (args_id args))
                  (set_is_overlay_id_attr (args_overlay args) self1, w0))
        as [r3 [self3 w3]] eqn:E3.
      cbn [fst snd] in *. split; [exact Hq | split].
      * intros e ->. rewrite (bind_Raise _ _ _ _ _ E3). reflexivity.
      * intros ->. rewrite (bind_Ok _ _ _ _ _ E3).
        pose proof (_draw_annotations_traffic ext (self3, w3)) as Ht.
        unfold save.
        destruct (_draw_annotations ext (self3, w3)) as [r4 [self4 w4]] eqn:E4.
        cbn [fst snd] in *. split; [exact Ht | split].
        -- intros e ->. rewrite (bind_Raise _ _ _ _ _ E4). reflexivity.
        -- intros im ->. rewrite (bind_Ok _ _ _ _ _ E4). reflexivity.
Qed.

Lemma script_steps_in_order_witness :
  let args := {| args_url := "http://girder/api/v1"; args_username := "user";
                 args_password := Some "secret"; args_id := "item1";
                 args_colormap := "colors.json"; args_output := "out.png";
                 args_overlay := false |} in
  let out := main Demo.ext (fun _ => Demo.registry) (fun _ _ _ => Ok tt) args
               (Demo.world None) in
  fst out = Ok tt
  /\ trace (snd (snd out))
     = [EvGet (GetOverlays "item1"); EvGet (GetItemFiles "overlay1" 2);
        EvGet (GetItemAnnotations "item1");
        EvTempFile "/tmp/tmp0.png"; EvDownloadFile "f1" "/tmp/tmp0.png";
        EvClose "/tmp/tmp0.png"; EvSave "out.png"].
Proof.
  intros args out.
  destruct (script_steps_in_order Demo.ext (fun _ => Demo.registry)
              (fun _ _ _ => Ok tt) args (Demo.world None)) as [_ Hlogin].
  destruct (Hlogin eq_refl) as [_ Hloaded].
  destruct (Hloaded eq_refl) as (_ & _ & Hassigned).
  destruct (Hassigned eq_refl) as (_ & _ & Hdrawn).
  subst out. erewrite Hdrawn; [| vm_compute; reflexivity].
  split; vm_compute; reflexivity.
Defined.

(** ** Polylines *)

Lemma lookup_map_take2 (points : list (list Z)) (i : nat) (p : list Z) :
  points !! i = Some p -> map (take 2) points !! i = Some (take 2 p).
Proof.
  revert i. induction points as [| q points IH]; intros [| i] H;
    try discriminate.
  - injection H as ->. reflexivity.
  - cbn. apply IH. exact H.
Qed.

(** X27. A polyline element without points raises KeyError 'points'.
    With points it leads to exactly one [polygon] call through as many
    points, in the same order, each cut to its first two coordinates,
    with outline and fill both the group's color; drawing the element is
    the outcome of that call. *)
Theorem polyline_rendering (ext : Externals) (color : color) (e : element) :
  el_type e = "polyline" ->
  (el_points e = None -> draw_element color e = Raise (KeyError "points"))
  /\ (forall points,
        el_points e = Some points ->
        draw_element color e
        = Ok (DrawPolygon (map (take 2) points) color color)
        /\ length (map (take 2) points) = length points
        /\ (forall i p, points !! i = Some p ->
                        map (take 2) points !! i = Some (take 2 p))
        /\ forall im,
             draw_elements ext color [e] im
             = ImageDraw_call ext
                 (DrawPolygon (map (take 2) points) color color) im).
Proof.
  intros Htype. split.
  - intros Hnone. unfold draw_element. rewrite Htype, Hnone. reflexivity.
  - intros points Hpoints.
    assert (Hcall : draw_element color e
                    = Ok (DrawPolygon (map (take 2) points) color color)).
    { unfold draw_element. rewrite Htype, Hpoints. reflexivity. }
    split; [exact Hcall | split; [apply length_map | split]].
    + intros i p. apply lookup_map_take2.
    + exact (draw_one_element ext color e _ Hcall).
Qed.

Lemma polyline_rendering_witness :
  let e := {| el_type := "polyline"; el_center := None; el_width := None;
              el_height := None;
              el_points := Some [[0; 0; 0]; [4; 0; 0]; [4; 4; 0]] |} in
  draw_element Demo.red e
  = Ok (DrawPolygon [[0; 0]; [4; 0]; [4; 4]] Demo.red Demo.red).
Proof.
  intros e.
  destruct (polyline_rendering Demo.ext Demo.red e eq_refl) as [_ Hsome].
  exact (proj1 (Hsome [[0; 0; 0]; [4; 0; 0]; [4; 4; 0]] eq_refl)).
Defined.
